(** * Schema extraction for the playground form renderer

    A shallow embedding of
    [agenta-web/src/components/PlaygroundTest/betterTypes/transformers/schemaExtractors.ts]
    and the properties of [extractSchema] and [extractFromAnyOf].

    Schema nodes are JSON values as the TypeScript code receives them:
    objects are finite maps from property names to values, and the code
    probes them with ["k" in o], [o.k], [||], [&&] and [??].  The embedding
    keeps that dynamic view: a property may be absent, or present with any
    value (including [undefined], which object literals of the code do
    produce). *)

From stdpp Require Import gmap strings list fin_maps pretty.

#[local] Set Warnings "-register-all".
#[local] Open Scope string_scope.

(** ** JavaScript values *)

(** The values a parsed JSON document holds, and [undefined].  [JNum n] is
    the number an integer literal [n] denotes: the code only tests a number
    for truthiness and prints it with [String(...)], and [number_to_string]
    below rounds the literal to its double before printing.  Fractional
    literals are outside the embedding. *)
Inductive JsValue : Type :=
  | JUndefined
  | JNull
  | JBool (b : bool)
  | JNum (n : Z)
  | JStr (s : string)
  | JArr (vs : list JsValue)
  | JObj (o : gmap string JsValue).

Abbreviation obj := (gmap string JsValue).

(** The two errors the module throws itself, and the runtime [TypeError]
    JavaScript raises when a value of the wrong shape is called or read. *)
Inductive JsError : Type :=
  | EmptyUnionError      (* "No valid non-null schema found in anyOf" *)
  | InvalidSchemaShape   (* "Invalid schema type" *)
  | TypeError.

Inductive result (A : Type) : Type :=
  | Ok (a : A)
  | Throw (e : JsError).
Arguments Ok {A} a.
Arguments Throw {A} e.

#[global] Instance result_ret : MRet result := fun _ a => Ok a.
#[global] Instance result_bind : MBind result := fun _ _ f m =>
  match m with Ok a => f a | Throw e => Throw e end.

(** [Boolean(v)]. *)
Definition truthy (v : JsValue) : bool :=
  match v with
  | JUndefined | JNull => false
  | JBool b => b
  | JNum n => negb (n =? 0)%Z
  | JStr s => negb (String.eqb s "")
  | JArr _ | JObj _ => true
  end.

(** [a || b], [a && b] and [a ?? b] on already evaluated operands (all the
    operands in the module are free of effects). *)
Definition js_or (a b : JsValue) : JsValue := if truthy a then a else b.
Definition js_and (a b : JsValue) : JsValue := if truthy a then b else a.
Definition nullish (v : JsValue) : bool :=
  match v with JUndefined | JNull => true | _ => false end.
Definition js_coalesce (a b : JsValue) : JsValue := if nullish a then b else a.

(** ["k" in o] and [o.k] on an object. *)
Definition has (k : string) (o : obj) : bool := bool_decide (is_Some (o !! k)).
Definition get (o : obj) (k : string) : JsValue := default JUndefined (o !! k).

(** [v.k] on an arbitrary value, for the property names the module reads
    ([type], [label], [value]): none of them is a built-in property of an
    array, string, number or boolean, so those read [undefined]; reading a
    property of [undefined] or [null] throws. *)
Definition member (v : JsValue) (k : string) : result JsValue :=
  match v with
  | JUndefined | JNull => Throw TypeError
  | JObj o => Ok (get o k)
  | _ => Ok JUndefined
  end.

(** [v === "s"] for a string literal. *)
Definition is_str (s : string) (v : JsValue) : bool :=
  match v with JStr s' => String.eqb s' s | _ => false end.

(** [{...a, ...b}]: the properties of [b] overwrite those of [a]. *)
Definition spread (a b : obj) : obj := b ∪ a.

(** The rest of an object literal after its spreads: [k1: v1, k2: v2, ...]
    assigned from left to right. *)
Definition with_props (o : obj) (ps : list (string * JsValue)) : obj :=
  fold_left (fun acc kv => <[kv.1 := kv.2]> acc) ps o.

(** ** Printing a number

    [Number::toString] on the double nearest to an integer literal.  Below
    [2^53] every integer is its own double and prints in plain decimal.
    Above, the literal is rounded to 53 significant bits (ties to even,
    [Infinity] from [2^1024]) and printed with the fewest digits that read
    back as the same double, in exponent form from 22 digits on. *)

Definition decimal_digits (a : Z) : Z := Z.of_nat (String.length (pretty a)).

Definition nearest_double (a : Z) : Z :=
  let e := (Z.log2 a - 52)%Z in
  if (e <=? 0)%Z then a
  else
    let q := Z.shiftr a e in
    let r := Z.land a (Z.ones e) in
    let half := (2 ^ (e - 1))%Z in
    let q' := if (half <? r)%Z || ((r =? half)%Z && Z.odd q) then (q + 1)%Z else q in
    Z.shiftl q' e.

(** Whether the decimal [c] reads back as the double [d] (at least [2^53]):
    [c] is within half a unit in the last place, the gap below a power of
    two being half the gap above, and a midpoint belongs to the double of
    even significand. *)
Definition reads_back_as (d c : Z) : bool :=
  let ulp := (2 ^ (Z.log2 d - 52))%Z in
  let m := (d / ulp)%Z in
  let below := if (m =? 2 ^ 52)%Z then (ulp / 2)%Z else ulp in
  if (d <=? c)%Z then
    (2 * (c - d) <? ulp)%Z || (Z.even m && (2 * (c - d) =? ulp)%Z)
  else
    (2 * (d - c) <? below)%Z || (Z.even m && (2 * (d - c) =? below)%Z).

(** The multiples of [p] around [d] that read back as [d], the closer one
    first (on a tie, the one with the even multiplier). *)
Definition candidate (d p : Z) : option Z :=
  let lo := (d / p * p)%Z in
  let hi := (lo + p)%Z in
  match reads_back_as d lo, reads_back_as d hi with
  | true, true =>
      if (d - lo <? hi - d)%Z then Some lo
      else if (hi - d <? d - lo)%Z then Some hi
      else if Z.even (d / p) then Some lo else Some hi
  | true, false => Some lo
  | false, true => Some hi
  | false, false => None
  end.

(** The decimal with the fewest significant digits that reads back as [d]:
    the powers of ten are tried from the largest down to [1], where [d]
    itself is found. *)
Fixpoint shortest_from (fuel : nat) (p d : Z) : Z :=
  match fuel with
  | O => d
  | S fuel' =>
      match candidate d p with
      | Some v => v
      | None => shortest_from fuel' (p / 10)%Z d
      end
  end.

Definition shortest_decimal (d : Z) : Z :=
  let n := String.length (pretty d) in
  shortest_from n (10 ^ (Z.of_nat n - 1))%Z d.

Fixpoint strip_zeros (fuel : nat) (v : Z) : Z :=
  match fuel with
  | O => v
  | S fuel' => if (v mod 10 =? 0)%Z then strip_zeros fuel' (v / 10)%Z else v
  end.

(** [d.ddde+x] for a decimal [v] of more than 21 digits. *)
Definition exponent_form (v : Z) : string :=
  let n := String.length (pretty v) in
  let digits := pretty (strip_zeros n v) in
  match digits with
  | String c EmptyString => String c EmptyString
  | String c rest => String c ("." ++ rest)
  | EmptyString => EmptyString
  end ++ "e+" ++ pretty (Z.of_nat n - 1)%Z.

Definition magnitude_to_string (a : Z) : string :=
  if (a <? 2 ^ 53)%Z then pretty a
  else
    let d := nearest_double a in
    if (2 ^ 1024 <=? d)%Z then "Infinity"
    else
      let v := shortest_decimal d in
      if (decimal_digits v <=? 21)%Z then pretty v else exponent_form v.

Definition number_to_string (n : Z) : string :=
  match n with
  | Z0 => "0"
  | Zpos p => magnitude_to_string (Zpos p)
  | Zneg p => "-" ++ magnitude_to_string (Zpos p)
  end.

(** ** Printing a value *)

(** The [ToString] of [String(v)], [None] when it throws a [TypeError].  An
    array joins the strings of its elements with a comma, [null] and
    [undefined] elements printing as the empty string.  An object prints
    through [Object.prototype.toString], unless it has a [toString] property
    of its own: no JSON value is callable, so the conversion to a primitive
    finds neither a [toString] nor a [valueOf] that returns one, and
    throws. *)
Fixpoint toString (v : JsValue) : option string :=
  match v with
  | JUndefined => Some "undefined"
  | JNull => Some "null"
  | JBool true => Some "true"
  | JBool false => Some "false"
  | JNum n => Some (number_to_string n)
  | JStr s => Some s
  | JArr vs =>
      match
        (fix join (l : list JsValue) : option (list string) :=
           match l with
           | [] => Some []
           | e :: l' =>
               match match e with
                     | JUndefined | JNull => Some ""
                     | _ => toString e
                     end with
               | Some s =>
                   match join l' with
                   | Some ss => Some (s :: ss)
                   | None => None
                   end
               | None => None
               end
           end) vs
      with
      | Some ss => Some (String.concat "," ss)
      | None => None
      end
  | JObj o => if has "toString" o then None else Some "[object Object]"
  end.

(** [String(v)]. *)
Definition js_String (v : JsValue) : result string :=
  match toString v with
  | Some s => Ok s
  | None => Throw TypeError
  end.

(** [Object.entries(v)] for a truthy value that is not an array: the
    properties of an object, the indexed characters of a string, nothing for
    a number or a boolean. *)
Definition entries (v : JsValue) : list (string * JsValue) :=
  match v with
  | JObj o => map_to_list o
  | JStr s =>
      imap (fun i c => (pretty i, JStr (String c EmptyString)))
           (String.list_ascii_of_string s)
  | _ => []
  end.

(** [v.map(String)]: only an array has a [map] method. *)
Definition map_String (v : JsValue) : result JsValue :=
  match v with
  | JArr vs =>
      vs' ← mapM (fun e => s ← js_String e; mret (JStr s)) vs;
      mret (JArr vs')
  | _ => Throw TypeError
  end.

(** ** Schema classifier *)

(** Modelled from the spec: [hasType] and [isSchema] are imported from
    [../utilities/schema], which is not among the sources.  Section 4.1:
    [hasType] is true iff a [type] field is present at all; the predicates
    are total and never throw. *)
Definition hasType (schema : JsValue) : bool :=
  match schema with JObj o => has "type" o | _ => false end.

(** [schema.type] for a schema that passed [hasType]. *)
Definition type_of (schema : JsValue) : JsValue :=
  match schema with JObj o => get o "type" | _ => JUndefined end.

(** Modelled from the spec: [isSchema.primitive] of the missing
    [../utilities/schema].  Section 4.1: true iff the node's [type] field
    matches the kind; section 3: the primitive kinds are string, number,
    boolean and integer. *)
Definition isPrimitive (schema : JsValue) : bool :=
  hasType schema &&
  (is_str "string" (type_of schema) || is_str "number" (type_of schema) ||
   is_str "boolean" (type_of schema) || is_str "integer" (type_of schema)).

(** Modelled from the spec: [isSchema.array] of the missing
    [../utilities/schema]; section 4.1, the [type] field is ["array"]. *)
Definition isArray (schema : JsValue) : bool :=
  hasType schema && is_str "array" (type_of schema).

(** Modelled from the spec: [isSchema.object] of the missing
    [../utilities/schema]; section 4.1, the [type] field is ["object"]. *)
Definition isObject (schema : JsValue) : bool :=
  hasType schema && is_str "object" (type_of schema).

(** ** The extractors *)

Record ExtractedSchema : Type := mkExtracted {
  schema : obj;
  parentTitle : option string;
  parentDescription : option string;
  isNullable : bool;
}.

(** The [choices] constant of [createPrimitiveSchema]. *)
Definition pickChoices (parentMetadata selectedSchema : obj) : JsValue :=
  js_or
    (js_or
       (js_and (JBool (has "choices" selectedSchema)) (get selectedSchema "choices"))
       (js_and (JBool (has "choices" parentMetadata)) (get parentMetadata "choices")))
    JUndefined.

(** The [processedChoices] constant of [createPrimitiveSchema]. *)
Definition processChoices (choices : JsValue) : result JsValue :=
  if truthy choices then
    match choices with
    | JArr cs =>
        cs' ← mapM (fun c =>
                      l ← member c "label";
                      sl ← js_String l;
                      v ← member c "value";
                      sv ← js_String v;
                      mret (JObj (with_props ∅ [("label", JStr sl);
                                                ("value", JStr sv)]))) cs;
        mret (JArr cs')
    | _ =>
        es ← mapM (fun kv => v' ← map_String kv.2; mret (kv.1, v')) (entries choices);
        mret (JObj (list_to_map es))
    end
  else Ok choices.

Definition createPrimitiveSchema
    (parentMetadata selectedSchema : obj) (schemaType : JsValue) : result obj :=
  let choices := pickChoices parentMetadata selectedSchema in
  processedChoices ← processChoices choices;
  mret (with_props (spread parentMetadata selectedSchema)
          [("type", schemaType);
           ("title", js_or (get selectedSchema "title") (get parentMetadata "title"));
           ("description",
              js_or (get selectedSchema "description") (get parentMetadata "description"));
           ("default",
              js_coalesce (get selectedSchema "default") (get parentMetadata "default"));
           ("enum", get selectedSchema "enum");
           ("choices", processedChoices)]).

(** The object literal shared by the [array] and [object] cases of
    [combineSchemas]. *)
Definition structuralSchema (kind : string) (parentMetadata selectedSchema : obj) : obj :=
  with_props (spread parentMetadata selectedSchema)
    [("type", JStr kind);
     ("title", js_or (get selectedSchema "title") (get parentMetadata "title"));
     ("description",
        js_or (get selectedSchema "description") (get parentMetadata "description"));
     ("default",
        js_coalesce (get selectedSchema "default") (get parentMetadata "default"))].

Definition combineSchemas (parentMetadata selectedSchema : obj) : result obj :=
  if has "type" selectedSchema then
    let schemaType := get selectedSchema "type" in
    if is_str "array" schemaType then
      Ok (structuralSchema "array" parentMetadata selectedSchema)
    else if is_str "object" schemaType then
      Ok (structuralSchema "object" parentMetadata selectedSchema)
    else createPrimitiveSchema parentMetadata selectedSchema schemaType
  else if has "anyOf" selectedSchema then
    Ok (spread parentMetadata selectedSchema)
  else Throw InvalidSchemaShape.

(** The three results [combineSchemas] can return for a typed selection. *)
Inductive combined (parentMetadata selectedSchema : obj) : obj -> Prop :=
  | combined_array :
      get selectedSchema "type" = JStr "array" ->
      combined parentMetadata selectedSchema
        (structuralSchema "array" parentMetadata selectedSchema)
  | combined_object :
      get selectedSchema "type" = JStr "object" ->
      combined parentMetadata selectedSchema
        (structuralSchema "object" parentMetadata selectedSchema)
  | combined_primitive processedChoices :
      is_str "array" (get selectedSchema "type") = false ->
      is_str "object" (get selectedSchema "type") = false ->
      processChoices (pickChoices parentMetadata selectedSchema) = Ok processedChoices ->
      combined parentMetadata selectedSchema
        (with_props (spread parentMetadata selectedSchema)
           [("type", get selectedSchema "type");
            ("title", js_or (get selectedSchema "title") (get parentMetadata "title"));
            ("description",
               js_or (get selectedSchema "description") (get parentMetadata "description"));
            ("default",
               js_coalesce (get selectedSchema "default") (get parentMetadata "default"));
            ("enum", get selectedSchema "enum");
            ("choices", processedChoices)]).

(** The [nonNullSchemas] and [isNullable] constants of [extractFromAnyOf]. *)
Definition nonNullSchemas (anyOf : list JsValue) : list JsValue :=
  List.filter (fun schema => hasType schema && negb (is_str "null" (type_of schema))) anyOf.

Definition someNull (anyOf : list JsValue) : bool :=
  existsb (fun schema => hasType schema && is_str "null" (type_of schema)) anyOf.

(** [l.find(p)] and [l[0]]: [undefined] when there is no such element. *)
Definition js_find (p : JsValue -> bool) (l : list JsValue) : JsValue :=
  default JUndefined (List.find p l).
Definition first (l : list JsValue) : JsValue := default JUndefined (head l).

(** The [selectedSchema] constant of [extractFromAnyOf]. *)
Definition selectSchema (nonNull : list JsValue) : JsValue :=
  js_or (js_or (js_or (js_find isPrimitive nonNull) (js_find isArray nonNull))
               (js_find isObject nonNull))
        (first nonNull).

(** The [typedSelectedSchema] constant of [extractFromAnyOf]: the cast of
    [enum] is erased at run time, the property is copied as it is. *)
Definition typedSelectedSchema (selectedSchema : obj) : obj :=
  with_props selectedSchema [("enum", get selectedSchema "enum")].

(** [extractFromAnyOf]: calling [filter] on an [anyOf] that is not an array
    is a [TypeError]; so is reading [enum] of a selected schema that is not
    an object, which [selectSchema_typed] below shows cannot happen. *)
Definition extractFromAnyOf (anyOfSchema : obj) : result ExtractedSchema :=
  match get anyOfSchema "anyOf" with
  | JArr anyOf =>
      let nonNull := nonNullSchemas anyOf in
      let nullable := someNull anyOf in
      if (length nonNull =? 0)%nat then Throw EmptyUnionError
      else
        match selectSchema nonNull with
        | JObj selectedSchema =>
            let parentMetadata := delete "anyOf" anyOfSchema in
            combinedSchema ←
              combineSchemas parentMetadata (typedSelectedSchema selectedSchema);
            mret (mkExtracted combinedSchema None None nullable)
        | _ => Throw TypeError
        end
  | _ => Throw TypeError
  end.

Definition extractFromObject (objectSchema : obj) : ExtractedSchema :=
  mkExtracted objectSchema None None false.

Definition isAnyOfSchema (schema : obj) : bool := has "anyOf" schema.

Definition extractSchema (schema : obj) : result ExtractedSchema :=
  if isAnyOfSchema schema then extractFromAnyOf schema
  else Ok (mkExtracted schema None None false).

(** ** The resolution rules as the design document words them

    These definitions follow the text of the design document, not the code;
    the theorems below compare them with the extractors. *)

(** An alternative whose [type] is exactly the null marker. *)
Definition null_typed (v : JsValue) : Prop :=
  exists o, v = JObj o /\ o !! "type" = Some (JStr "null").

Definition is_null_typed (v : JsValue) : bool :=
  match v with
  | JObj o => match o !! "type" with Some (JStr s) => String.eqb s "null" | _ => false end
  | _ => false
  end.

(** Section 4.3, step 1: the alternatives that are not typed-null. *)
Definition others (anyOf : list JsValue) : list JsValue :=
  List.filter (fun v => negb (is_null_typed v)) anyOf.

(** A fixed precedence over a list of candidates: the first primitive, else
    the first array, else the first object, else the first element of
    [fallback]. *)
Definition by_precedence (candidates fallback : list JsValue) : option JsValue :=
  match List.find isPrimitive candidates with
  | Some v => Some v
  | None =>
      match List.find isArray candidates with
      | Some v => Some v
      | None =>
          match List.find isObject candidates with
          | Some v => Some v
          | None => head fallback
          end
      end
  end.

(** Section 4.3, step 4, as worded: the representative is chosen among "all
    others", and falls back to the first of them. *)
Definition representative_as_worded (anyOf : list JsValue) : option JsValue :=
  by_precedence (others anyOf) (others anyOf).

(** The string form of a value that has one. *)
Definition string_form (v : JsValue) : string := default "" (toString v).
Definition printable (v : JsValue) : bool :=
  match toString v with Some _ => true | None => false end.

(** Section 4.3, step 5, as worded: an [enum] coerced to strings. *)
Definition enum_as_strings (e : JsValue) : JsValue :=
  match e with
  | JArr vs => JArr (List.map (fun v => JStr (string_form v)) vs)
  | _ => e
  end.

(** Section 3: [choices] is a sequence of label/value pairs or a mapping
    from group names to sequences of values; the tests and readers of the
    two shapes. *)
Definition is_object (v : JsValue) : bool :=
  match v with JObj _ => true | _ => false end.
Definition is_array (v : JsValue) : bool :=
  match v with JArr _ => true | _ => false end.

Definition field (v : JsValue) (k : string) : JsValue :=
  match v with JObj o => get o k | _ => JUndefined end.
Definition elements_of (v : JsValue) : list JsValue :=
  match v with JArr vs => vs | _ => [] end.

(** Section 4.2: the two canonical shapes, every label and value in its
    string form.  A number or a boolean given as [choices] has no entries:
    it is the mapping without groups. *)
Definition canonical_pair (c : JsValue) : JsValue :=
  JObj {[ "label" := JStr (string_form (field c "label"));
          "value" := JStr (string_form (field c "value")) ]}.

Definition canonical_group (v : JsValue) : JsValue :=
  JArr (List.map (fun e => JStr (string_form e)) (elements_of v)).

Definition canonical_choices (c : JsValue) : JsValue :=
  match c with
  | JArr cs => JArr (List.map canonical_pair cs)
  | JObj groups => JObj (canonical_group <$> groups)
  | JNum _ | JBool _ => JObj ∅
  | _ => c
  end.

Definition string_pair (v : JsValue) : Prop :=
  exists l x, v = JObj {[ "label" := JStr l; "value" := JStr x ]}.
Definition string_list (v : JsValue) : Prop :=
  exists ss : list string, v = JArr (List.map JStr ss).

Definition is_canonical_choices (c : JsValue) : Prop :=
  (exists ps, c = JArr ps /\ Forall string_pair ps) \/
  (exists groups : obj, c = JObj groups /\ map_Forall (fun _ v => string_list v) groups).


(** The choices the merge takes, as amended: the child's when they are
    truthy, else the parent's when those are truthy. *)
Definition choices_truthy_child_else_parent (parent child : obj) : JsValue :=
  if truthy (get child "choices") then get child "choices"
  else if truthy (get parent "choices") then get parent "choices"
  else JUndefined.

(** The choices that can be normalized: a list whose entries are not
    [null] or [undefined] and have a printable [label] and [value]; a
    mapping whose groups are arrays of printable entries; a number or a
    boolean; not a string with characters in it, whose characters are not
    arrays. *)
Definition pair_ok (c : JsValue) : bool :=
  negb (nullish c) && printable (field c "label") && printable (field c "value").
Definition group_ok (v : JsValue) : bool :=
  match v with JArr vs => forallb printable vs | _ => false end.
Definition choices_ok (c : JsValue) : bool :=
  match c with
  | JArr cs => forallb pair_ok cs
  | JObj groups => forallb (fun kv => group_ok kv.2) (map_to_list groups)
  | JStr s => String.eqb s ""
  | _ => true
  end.

(** ** The properties as the design document states them *)

(** Union elimination, as stated: no result carries [anyOf]. *)
Definition union_eliminated (node : obj) : Prop :=
  forall r, extractSchema node = Ok r -> schema r !! "anyOf" = None.

(** Representative selection, as stated: with at least one alternative
    outside the typed-null partition, the resolver's selection is the one
    worded in section 4.3 and resolution does not fail for want of one. *)
Definition selects_as_worded (node : obj) : Prop :=
  forall anyOf, node !! "anyOf" = Some (JArr anyOf) -> others anyOf <> [] ->
    representative_as_worded anyOf = Some (selectSchema (nonNullSchemas anyOf)) /\
    extractSchema node <> Throw EmptyUnionError.

(** Enum normalization, as stated: the representative's [enum] reaches the
    result coerced to strings. *)
Definition enum_coerced (node : obj) : Prop :=
  forall anyOf sel e r,
    node !! "anyOf" = Some (JArr anyOf) ->
    selectSchema (nonNullSchemas anyOf) = JObj sel ->
    sel !! "enum" = Some e ->
    extractSchema node = Ok r ->
    schema r !! "enum" = Some (enum_as_strings e).

(** Inheritance of a field [k], as stated: the child's value if the child
    has one present, else the parent's. *)
Definition child_if_present (k : string) (node : obj) : Prop :=
  forall anyOf sel r,
    node !! "anyOf" = Some (JArr anyOf) ->
    selectSchema (nonNullSchemas anyOf) = JObj sel ->
    extractSchema node = Ok r ->
    get (schema r) k = match sel !! k with Some v => v | None => get node k end.


(** ** Sample documents *)

(** [{"anyOf":[{"type":"string"},{"type":"null"}]}] *)
Definition ex_string_or_null : obj :=
  {[ "anyOf" := JArr [JObj {[ "type" := JStr "string" ]};
                      JObj {[ "type" := JStr "null" ]}] ]}.

(** [{"anyOf":[{"type":"null"}]}] *)
Definition ex_only_null : obj :=
  {[ "anyOf" := JArr [JObj {[ "type" := JStr "null" ]}] ]}.

(** [{"anyOf":[{"type":"string"}],"title":"Name","default":"x"}] *)
Definition ex_titled : obj :=
  {[ "anyOf" := JArr [JObj {[ "type" := JStr "string" ]}];
     "title" := JStr "Name";
     "default" := JStr "x" ]}.

(** [{"type":"integer","title":"Count"}] *)
Definition ex_count : obj :=
  {[ "type" := JStr "integer"; "title" := JStr "Count" ]}.


(** [{"anyOf":[{"type":"object","anyOf":[{"required":["a"]}]}]}] *)
Definition ex_typed_union : obj :=
  {[ "anyOf" :=
       JArr [JObj {[ "type" := JStr "object";
                     "anyOf" := JArr [JObj {[ "required" := JArr [JStr "a"] ]}] ]}] ]}.

(** [{"anyOf":[{"anyOf":[{"type":"string"}]}]}] *)
Definition ex_nested_union : obj :=
  {[ "anyOf" := JArr [JObj {[ "anyOf" := JArr [JObj {[ "type" := JStr "string" ]}] ]}] ]}.

(** [{"anyOf":[{"type":"object"},{"anyOf":[]},{"type":"array"}]}] *)
Definition ex_mixed_kinds : obj :=
  {[ "anyOf" := JArr [JObj {[ "type" := JStr "object" ]};
                      JObj {[ "anyOf" := JArr [] ]};
                      JObj {[ "type" := JStr "array" ]}] ]}.

(** [{"anyOf":[{"type":"string"}],"enum":["a"]}] *)
Definition ex_parent_enum : obj :=
  {[ "anyOf" := JArr [JObj {[ "type" := JStr "string" ]}];
     "enum" := JArr [JStr "a"] ]}.

(** [{"anyOf":[{"type":"boolean","default":false}],"default":true}] *)
Definition ex_false_default : obj :=
  {[ "anyOf" := JArr [JObj {[ "type" := JStr "boolean"; "default" := JBool false ]}];
     "default" := JBool true ]}.

(** [{"anyOf":[{"type":"integer","enum":[1,2]}]}] *)
Definition ex_int_enum : obj :=
  {[ "anyOf" := JArr [JObj {[ "type" := JStr "integer";
                              "enum" := JArr [JNum 1; JNum 2] ]}] ]}.

(** [{"anyOf":[{"type":"string","title":""}],"title":"Name"}] *)
Definition ex_empty_title : obj :=
  {[ "anyOf" := JArr [JObj {[ "type" := JStr "string"; "title" := JStr "" ]}];
     "title" := JStr "Name" ]}.

(** [{"anyOf":[{"type":"string","default":null}],"default":"x"}] *)
Definition ex_null_default : obj :=
  {[ "anyOf" := JArr [JObj {[ "type" := JStr "string"; "default" := JNull ]}];
     "default" := JStr "x" ]}.

(** [{"anyOf":null,"title":"T"}] *)
Definition ex_anyOf_null : obj :=
  {[ "anyOf" := JNull; "title" := JStr "T" ]}.

(** [{"anyOf":[{"anyOf":[{"type":"string"}],"title":""}],"title":"Name","x":1}]
    without its alternatives list, and its untyped alternative. *)
Definition ex_nested_parent : obj :=
  {[ "title" := JStr "Name"; "x" := JNum 1 ]}.
Definition ex_nested_child : obj :=
  {[ "anyOf" := JArr [JObj {[ "type" := JStr "string" ]}]; "title" := JStr "" ]}.

(** [{"anyOf":[{"type":"array","items":{"type":"integer"},"choices":[null]},
              {"type":"null"}],
      "x-parameter":"multiple_choice","choices":["a"]}] *)
Definition ex_array_items : obj :=
  {[ "anyOf" := JArr [JObj {[ "type" := JStr "array";
                              "items" := JObj {[ "type" := JStr "integer" ]};
                              "choices" := JArr [JNull] ]};
                      JObj {[ "type" := JStr "null" ]}];
     "x-parameter" := JStr "multiple_choice";
     "choices" := JArr [JStr "a"] ]}.

(** [{"anyOf":[{"type":"string","choices":[{"label":"a","value":"b"},null]}]}] *)
Definition ex_null_choice : obj :=
  {[ "anyOf" :=
       JArr [JObj {[ "type" := JStr "string";
                     "choices" := JArr [JObj {[ "label" := JStr "a";
                                                "value" := JStr "b" ]};
                                        JNull] ]}] ]}.


(** [{"anyOf":[{"type":"string","choices":["a"]}]}] *)
Definition ex_string_choices : obj :=
  {[ "anyOf" := JArr [JObj {[ "type" := JStr "string";
                              "choices" := JArr [JStr "a"] ]}] ]}.

(** [{"anyOf":[{"type":"string","choices":{"g":["a"],"h":"b"}}]}] *)
Definition ex_group_not_array : obj :=
  {[ "anyOf" := JArr [JObj {[ "type" := JStr "string";
                              "choices" := JObj {[ "g" := JArr [JStr "a"];
                                                   "h" := JStr "b" ]} ]}] ]}.

(** [{"anyOf":[{"type":"string","choices":{"g":["a","b"]}}]}] *)
Definition ex_canonical_groups : obj :=
  {[ "anyOf" := JArr [JObj {[ "type" := JStr "string";
                              "choices" := JObj {[ "g" := JArr [JStr "a"; JStr "b"] ]} ]}] ]}.

(** [{"anyOf":[{"type":"string",
               "choices":{"g":[1000000000000000000000,-7,"a",null,[1,[2]]]}}]}] *)
Definition ex_number_group : obj :=
  {[ "anyOf" :=
       JArr [JObj {[ "type" := JStr "string";
                     "choices" :=
                       JObj {[ "g" := JArr [JNum (10 ^ 21); JNum (-7); JStr "a"; JNull;
                                            JArr [JNum 1; JArr [JNum 2]]] ]} ]}] ]}.

(** [{"anyOf":[{"type":"string",
               "choices":[{"label":{"toString":"x"},"value":"v"}]}]}] *)
Definition ex_own_toString : obj :=
  {[ "anyOf" :=
       JArr [JObj {[ "type" := JStr "string";
                     "choices" :=
                       JArr [JObj {[ "label" := JObj {[ "toString" := JStr "x" ]};
                                     "value" := JStr "v" ]}] ]}] ]}.

(** The nullish entries of a [choices] array are the ones whose [label]
    cannot be read. *)
Definition has_nullish (cs : list JsValue) : bool := existsb nullish cs.

(** The properties every typed merge assigns after its spreads, and the
    two more the primitive merge assigns. *)
Definition assigned_keys : list string :=
  ["type"; "title"; "description"; "default"].
Definition primitive_keys : list string := ["enum"; "choices"].

(** ** Objects and operators *)

Lemma has_true k (o : obj) : has k o = true <-> is_Some (o !! k).
Proof. unfold has. apply bool_decide_eq_true. Qed.

Lemma has_false k (o : obj) : has k o = false <-> o !! k = None.
Proof.
  unfold has. rewrite bool_decide_eq_false, <- eq_None_not_Some. reflexivity.
Qed.

Lemma get_Some k (o : obj) v : o !! k = Some v -> get o k = v.
Proof. unfold get. intros ->. reflexivity. Qed.

Lemma get_delete_ne k k' (o : obj) : k <> k' -> get (delete k o) k' = get o k'.
Proof. intros Hne. unfold get. rewrite lookup_delete_ne by done. reflexivity. Qed.

Lemma get_insert_ne k k' v (o : obj) : k <> k' -> get (<[k:=v]> o) k' = get o k'.
Proof. intros Hne. unfold get. rewrite lookup_insert_ne by done. reflexivity. Qed.

Lemma is_str_true s v : is_str s v = true <-> v = JStr s.
Proof.
  destruct v; simpl; try (split; [discriminate | intros [=]]).
  rewrite String.eqb_eq. split; [intros -> | intros [=]]; congruence.
Qed.

Lemma js_or_undefined_l b : js_or JUndefined b = b.
Proof. reflexivity. Qed.

Lemma js_or_truthy a b : truthy a = true -> js_or a b = a.
Proof. unfold js_or. intros ->. reflexivity. Qed.

Lemma js_or_falsy a b : truthy a = false -> js_or a b = b.
Proof. unfold js_or. intros ->. reflexivity. Qed.

(** ** Selection of the representative *)

Lemma nonNullSchemas_In v anyOf :
  In v (nonNullSchemas anyOf) <->
  In v anyOf /\ hasType v = true /\ is_str "null" (type_of v) = false.
Proof.
  unfold nonNullSchemas. rewrite filter_In, andb_true_iff, negb_true_iff.
  reflexivity.
Qed.

Lemma hasType_object v :
  hasType v = true -> exists o, v = JObj o /\ is_Some (o !! "type").
Proof.
  destruct v; simpl; try discriminate.
  intros H. eexists. split; [reflexivity | by apply has_true].
Qed.

Lemma hasType_truthy v : hasType v = true -> truthy v = true.
Proof. intros (o & -> & _)%hasType_object. reflexivity. Qed.

Lemma isPrimitive_nonNull v :
  isPrimitive v = true -> hasType v = true /\ is_str "null" (type_of v) = false.
Proof.
  unfold isPrimitive. intros [Ht Hk]%andb_true_iff. split; [done |].
  repeat apply orb_true_iff in Hk as [Hk | Hk];
    apply is_str_true in Hk; rewrite Hk; reflexivity.
Qed.

Lemma isArray_nonNull v :
  isArray v = true -> hasType v = true /\ is_str "null" (type_of v) = false.
Proof.
  unfold isArray. intros [Ht Hk]%andb_true_iff. split; [done |].
  apply is_str_true in Hk; rewrite Hk; reflexivity.
Qed.

Lemma isObject_nonNull v :
  isObject v = true -> hasType v = true /\ is_str "null" (type_of v) = false.
Proof.
  unfold isObject. intros [Ht Hk]%andb_true_iff. split; [done |].
  apply is_str_true in Hk; rewrite Hk; reflexivity.
Qed.

(** Searching the filtered list for a kind finds what searching the whole
    list finds, when the kind is one the filter keeps. *)
Lemma find_filter_implied (p q : JsValue -> bool) l :
  (forall x, p x = true -> q x = true) ->
  List.find p (List.filter q l) = List.find p l.
Proof.
  intros Hpq. induction l as [| x l IH]; [reflexivity |]. simpl.
  destruct (q x) eqn:Hq; simpl.
  - destruct (p x); [reflexivity | exact IH].
  - destruct (p x) eqn:Hp; [| exact IH].
    apply Hpq in Hp. congruence.
Qed.

Lemma find_nonNullSchemas (p : JsValue -> bool) anyOf :
  (forall v, p v = true -> hasType v = true /\ is_str "null" (type_of v) = false) ->
  List.find p (nonNullSchemas anyOf) = List.find p anyOf.
Proof.
  intros Hp. apply find_filter_implied. intros x [-> ->]%Hp. reflexivity.
Qed.

Lemma js_find_truthy p l :
  Forall (fun v => truthy v = true) l ->
  forall x, List.find p l = Some x -> truthy (js_find p l) = true.
Proof.
  intros Hl x Hx. unfold js_find. rewrite Hx. simpl.
  apply find_some in Hx as [Hin _].
  rewrite Forall_forall in Hl. apply Hl. by apply list_elem_of_In.
Qed.

(** On truthy candidates the chain of [||] is the precedence order. *)
Lemma js_find_None p l : List.find p l = None -> js_find p l = JUndefined.
Proof. unfold js_find. intros ->. reflexivity. Qed.

Lemma js_find_Some p l x : List.find p l = Some x -> js_find p l = x.
Proof. unfold js_find. intros ->. reflexivity. Qed.

Lemma selectSchema_precedence nonNull :
  Forall (fun v => truthy v = true) nonNull ->
  selectSchema nonNull = default JUndefined (by_precedence nonNull nonNull).
Proof.
  intros Hl. unfold selectSchema, by_precedence.
  destruct (List.find isPrimitive nonNull) as [x |] eqn:Hp.
  { pose proof (js_find_truthy _ _ Hl _ Hp) as Ht.
    rewrite (js_or_truthy (js_find isPrimitive nonNull)) by done.
    repeat rewrite (js_or_truthy (js_find _ _)) by done. by apply js_find_Some. }
  rewrite (js_find_None isPrimitive) by done. rewrite js_or_undefined_l.
  destruct (List.find isArray nonNull) as [x |] eqn:Ha.
  { pose proof (js_find_truthy _ _ Hl _ Ha) as Ht.
    repeat rewrite (js_or_truthy (js_find _ _)) by done. by apply js_find_Some. }
  rewrite (js_find_None isArray) by done. rewrite js_or_undefined_l.
  destruct (List.find isObject nonNull) as [x |] eqn:Ho.
  { pose proof (js_find_truthy _ _ Hl _ Ho) as Ht.
    repeat rewrite (js_or_truthy (js_find _ _)) by done. by apply js_find_Some. }
  rewrite (js_find_None isObject) by done. reflexivity.
Qed.

Lemma nonNullSchemas_truthy anyOf :
  Forall (fun v => truthy v = true) (nonNullSchemas anyOf).
Proof.
  apply Forall_forall. intros v Hv%list_elem_of_In%nonNullSchemas_In.
  apply hasType_truthy, Hv.
Qed.

Lemma by_precedence_In candidates v :
  by_precedence candidates candidates = Some v -> In v candidates.
Proof.
  unfold by_precedence. intros H.
  repeat match type of H with
  | context [List.find ?p ?l] =>
      let E := fresh in
      destruct (List.find p l) eqn:E;
      [ injection H as <-; by apply find_some in E as [? _] |]
  end.
  destruct candidates; [discriminate | injection H as <-]. by left.
Qed.

(** The resolver's selection over the whole alternatives list. *)
Lemma selectSchema_nonNullSchemas anyOf :
  selectSchema (nonNullSchemas anyOf) =
  default JUndefined (by_precedence anyOf (nonNullSchemas anyOf)).
Proof.
  rewrite selectSchema_precedence by apply nonNullSchemas_truthy.
  unfold by_precedence.
  rewrite (find_nonNullSchemas isPrimitive) by apply isPrimitive_nonNull.
  rewrite (find_nonNullSchemas isArray) by apply isArray_nonNull.
  rewrite (find_nonNullSchemas isObject) by apply isObject_nonNull.
  reflexivity.
Qed.

(** The selected schema is an object with a [type] that is not the null
    marker. *)
Lemma selectSchema_typed anyOf :
  nonNullSchemas anyOf <> [] ->
  exists sel, selectSchema (nonNullSchemas anyOf) = JObj sel /\
              In (JObj sel) (nonNullSchemas anyOf) /\
              is_Some (sel !! "type").
Proof.
  intros Hne.
  rewrite selectSchema_precedence by apply nonNullSchemas_truthy.
  destruct (by_precedence (nonNullSchemas anyOf) (nonNullSchemas anyOf)) as [v |] eqn:Hv.
  - pose proof (by_precedence_In _ _ Hv) as Hin.
    pose proof Hin as (_ & (o & -> & Ho)%hasType_object & _)%nonNullSchemas_In.
    exists o. done.
  - unfold by_precedence in Hv.
    repeat match type of Hv with
    | context [List.find ?p ?l] => destruct (List.find p l); [discriminate |]
    end.
    destruct (nonNullSchemas anyOf); [done | discriminate].
Qed.

Lemma selectSchema_object_nonempty anyOf sel :
  selectSchema (nonNullSchemas anyOf) = JObj sel -> nonNullSchemas anyOf <> [].
Proof. intros H E. rewrite E in H. discriminate. Qed.

(** ** The merge *)

(** Reads a property of an object literal [with_props o [...]]. *)
Ltac read_props :=
  unfold structuralSchema;
  cbn [with_props fold_left fst snd];
  repeat (rewrite lookup_insert_ne by done);
  try rewrite lookup_insert_eq.

Lemma lookup_spread_Some (a b : obj) k v : b !! k = Some v -> spread a b !! k = Some v.
Proof. intros H. unfold spread. by apply lookup_union_Some_l. Qed.

Lemma lookup_spread_None_r (a b : obj) k : a !! k = None -> spread a b !! k = b !! k.
Proof. intros H. unfold spread. by apply lookup_union_l. Qed.

Lemma combineSchemas_typed parentMetadata selectedSchema c :
  is_Some (selectedSchema !! "type") ->
  combineSchemas parentMetadata selectedSchema = Ok c ->
  combined parentMetadata selectedSchema c.
Proof.
  intros Ht%has_true. unfold combineSchemas. rewrite Ht.
  destruct (is_str "array" _) eqn:Ha.
  { intros [= <-]. apply combined_array. by apply is_str_true. }
  destruct (is_str "object" _) eqn:Ho.
  { intros [= <-]. apply combined_object. by apply is_str_true. }
  unfold createPrimitiveSchema.
  destruct (processChoices _) as [pc | e] eqn:Hpc; [| discriminate].
  intros [= <-]. by apply combined_primitive.
Qed.

Section combined_fields.
Context (parentMetadata selectedSchema c : obj).
Hypothesis Hc : combined parentMetadata selectedSchema c.

Lemma combined_anyOf :
  c !! "anyOf" = spread parentMetadata selectedSchema !! "anyOf".
Proof. destruct Hc; read_props; reflexivity. Qed.

Lemma combined_type : c !! "type" = Some (get selectedSchema "type").
Proof. destruct Hc as [E | E |]; read_props; by rewrite ?E. Qed.

Lemma combined_title :
  c !! "title" =
  Some (js_or (get selectedSchema "title") (get parentMetadata "title")).
Proof. destruct Hc; read_props; reflexivity. Qed.

Lemma combined_description :
  c !! "description" =
  Some (js_or (get selectedSchema "description") (get parentMetadata "description")).
Proof. destruct Hc; read_props; reflexivity. Qed.

Lemma combined_default :
  c !! "default" =
  Some (js_coalesce (get selectedSchema "default") (get parentMetadata "default")).
Proof. destruct Hc; read_props; reflexivity. Qed.

Lemma combined_enum e :
  selectedSchema !! "enum" = Some e -> c !! "enum" = Some e.
Proof.
  intros He. destruct Hc; read_props;
    first [ by apply lookup_spread_Some | by rewrite (get_Some _ _ _ He) ].
Qed.
End combined_fields.

(** ** Resolution of a union *)

Lemma typedSelectedSchema_insert sel :
  typedSelectedSchema sel = <["enum" := get sel "enum"]> sel.
Proof. reflexivity. Qed.

Lemma extractSchema_union node anyOf sel :
  node !! "anyOf" = Some (JArr anyOf) ->
  selectSchema (nonNullSchemas anyOf) = JObj sel ->
  extractSchema node =
    (c ← combineSchemas (delete "anyOf" node) (typedSelectedSchema sel);
     mret (mkExtracted c None None (someNull anyOf))).
Proof.
  intros Hany Hsel. unfold extractSchema, isAnyOfSchema.
  rewrite (proj2 (has_true _ _)) by (rewrite Hany; eauto).
  unfold extractFromAnyOf. rewrite (get_Some _ _ _ Hany).
  pose proof (selectSchema_object_nonempty _ _ Hsel) as Hne.
  destruct (nonNullSchemas anyOf) as [| x l] eqn:E; [done |].
  cbn [length Nat.eqb]. rewrite Hsel. reflexivity.
Qed.

Lemma extractSchema_empty node anyOf :
  node !! "anyOf" = Some (JArr anyOf) ->
  nonNullSchemas anyOf = [] ->
  extractSchema node = Throw EmptyUnionError.
Proof.
  intros Hany Hnil. unfold extractSchema, isAnyOfSchema.
  rewrite (proj2 (has_true _ _)) by (rewrite Hany; eauto).
  unfold extractFromAnyOf. rewrite (get_Some _ _ _ Hany), Hnil. reflexivity.
Qed.

(** A successful resolution, taken apart: the representative is an object
    with a [type], and the result is one of the three merges of it. *)
Lemma extractSchema_union_Ok node anyOf r :
  node !! "anyOf" = Some (JArr anyOf) ->
  extractSchema node = Ok r ->
  exists sel,
    selectSchema (nonNullSchemas anyOf) = JObj sel /\
    is_Some (sel !! "type") /\
    combined (delete "anyOf" node) (typedSelectedSchema sel) (schema r) /\
    isNullable r = someNull anyOf.
Proof.
  intros Hany Hr.
  destruct (decide (nonNullSchemas anyOf = [])) as [E | E].
  { rewrite (extractSchema_empty _ _ Hany E) in Hr. discriminate. }
  destruct (selectSchema_typed anyOf E) as (sel & Hsel & _ & Ht).
  exists sel. rewrite (extractSchema_union _ _ _ Hany Hsel) in Hr.
  destruct (combineSchemas _ _) as [c | e] eqn:Hc; [| discriminate].
  injection Hr as <-. simpl. repeat split; try done.
  eapply combineSchemas_typed; [| done].
  rewrite typedSelectedSchema_insert. by rewrite lookup_insert_ne.
Qed.

Lemma null_typed_iff v :
  hasType v && is_str "null" (type_of v) = true <-> null_typed v.
Proof.
  rewrite andb_true_iff, is_str_true. split.
  - intros [(o & -> & [t Ht])%hasType_object Hn]. exists o. split; [done |].
    simpl in Hn. unfold get in Hn. rewrite Ht in Hn. simpl in Hn. congruence.
  - intros (o & -> & Ht). simpl. split.
    + apply has_true. eauto.
    + by apply get_Some.
Qed.

Lemma get_typed sel k :
  k <> "enum" -> get (typedSelectedSchema sel) k = get sel k.
Proof. intros Hk. rewrite typedSelectedSchema_insert. by apply get_insert_ne. Qed.

(** ** Pass-through *)

Lemma extractSchema_plain (node : obj) :
  node !! "anyOf" = None ->
  extractSchema node = Ok (mkExtracted node None None false).
Proof.
  intros H%has_false. unfold extractSchema, isAnyOfSchema. by rewrite H.
Qed.

(** C9. A node without an [anyOf] field is returned as it is, with
    [isNullable] false. *)
Theorem pass_through_identity (node : obj) :
  node !! "anyOf" = None ->
  extractSchema node = Ok (mkExtracted node None None false) /\
  extractSchema node = Ok (extractFromObject node).
Proof. intros H. split; by apply extractSchema_plain. Qed.

Lemma pass_through_identity_count :
  extractSchema ex_count = Ok (mkExtracted ex_count None None false).
Proof. apply (proj1 (pass_through_identity ex_count eq_refl)). Defined.

(** ** Failure on a union without alternatives *)

(** C3. A union whose [anyOf] list is empty, or holds only alternatives
    typed ["null"], fails with [EmptyUnionError]. *)
Theorem only_null_union_fails (node : obj) (anyOf : list JsValue) :
  node !! "anyOf" = Some (JArr anyOf) ->
  Forall null_typed anyOf ->
  extractSchema node = Throw EmptyUnionError.
Proof.
  intros Hany Hall. apply (extractSchema_empty _ _ Hany). clear Hany.
  unfold nonNullSchemas. induction Hall as [| v l Hv _ IH]; [reflexivity |].
  cbn [List.filter]. apply null_typed_iff, andb_true_iff in Hv as [-> ->].
  exact IH.
Qed.

Lemma only_null_union_fails_marker :
  extractSchema ex_only_null = Throw EmptyUnionError.
Proof.
  apply (only_null_union_fails ex_only_null [JObj {[ "type" := JStr "null" ]}]).
  - reflexivity.
  - repeat constructor. eexists. split; reflexivity.
Defined.

(** ** Nullability *)

(** C4. A resolved union is nullable exactly when its [anyOf] list holds an
    alternative typed ["null"]; the result's [type] is the representative's. *)
Theorem nullable_iff_null_listed (node : obj) (anyOf : list JsValue) (r : ExtractedSchema) :
  node !! "anyOf" = Some (JArr anyOf) ->
  extractSchema node = Ok r ->
  (isNullable r = true <-> Exists null_typed anyOf) /\
  (exists sel, selectSchema (nonNullSchemas anyOf) = JObj sel /\
               schema r !! "type" = sel !! "type").
Proof.
  intros Hany Hr.
  destruct (extractSchema_union_Ok _ _ _ Hany Hr) as (sel & Hsel & [t Ht] & Hc & Hn).
  split.
  - rewrite Hn. unfold someNull. rewrite existsb_exists, Exists_exists.
    split; intros (v & Hin & Hv); exists v;
      (split; [by apply list_elem_of_In | by apply null_typed_iff]).
  - exists sel. split; [done |].
    rewrite (combined_type _ _ _ Hc), get_typed by done.
    by rewrite Ht, (get_Some _ _ _ Ht).
Qed.

Lemma nullable_iff_null_listed_string_or_null :
  exists r, extractSchema ex_string_or_null = Ok r /\
            isNullable r = true /\ schema r !! "type" = Some (JStr "string").
Proof.
  destruct (extractSchema ex_string_or_null) as [r |] eqn:E; [| discriminate].
  exists r. split; [reflexivity |].
  destruct (nullable_iff_null_listed ex_string_or_null
              [JObj {[ "type" := JStr "string" ]}; JObj {[ "type" := JStr "null" ]}]
              r eq_refl E) as [Hn (sel & Hsel & Ht)].
  split.
  - apply Hn. right. left. eexists. split; reflexivity.
  - rewrite Ht. vm_compute in Hsel. injection Hsel as <-. reflexivity.
Defined.

(** ** Errors *)

Lemma bind_Ok {A B} (m : result A) (f : A -> result B) b :
  m ≫= f = Ok b -> exists a, m = Ok a /\ f a = Ok b.
Proof. destruct m as [a | e]; [eauto | discriminate]. Qed.

Lemma bind_Throw {A B} (m : result A) (f : A -> result B) e :
  m ≫= f = Throw e -> m = Throw e \/ exists a, m = Ok a /\ f a = Throw e.
Proof. destruct m as [a | e']; [eauto | intros [= ->]; eauto]. Qed.

Lemma mapM_Throw {A B} (f : A -> result B) (l : list A) e :
  mapM f l = Throw e -> exists x, In x l /\ f x = Throw e.
Proof.
  induction l as [| x l IH]; [discriminate |].
  cbn [mapM]. intros [Hx | (y & _ & [Hl | (k & _ & Hk)]%bind_Throw)]%bind_Throw.
  - exists x. split; [by left | done].
  - destruct (IH Hl) as (z & Hz & Hfz). exists z. split; [by right | done].
  - discriminate.
Qed.

Lemma member_Throw v k e : member v k = Throw e -> e = TypeError.
Proof. destruct v; simpl; congruence. Qed.

Lemma js_String_Throw v e : js_String v = Throw e -> e = TypeError.
Proof. unfold js_String. destruct (toString v); congruence. Qed.

Lemma map_String_Throw v e : map_String v = Throw e -> e = TypeError.
Proof.
  destruct v; simpl; try congruence.
  intros [(x & _ & Hx)%mapM_Throw | (? & _ & ?)]%bind_Throw; [| discriminate].
  apply bind_Throw in Hx as [Hx | (? & _ & ?)]; [| discriminate].
  by eapply js_String_Throw.
Qed.

(** Normalizing [choices] can only fail with a [TypeError]. *)
Lemma processChoices_Throw choices e :
  processChoices choices = Throw e -> e = TypeError.
Proof.
  unfold processChoices. destruct (truthy choices); [| discriminate].
  assert (forall es : list (string * JsValue),
    (es' ← mapM (fun kv => v' ← map_String kv.2; mret (kv.1, v')) es;
     mret (JObj (list_to_map es'))) = Throw e -> e = TypeError) as Hentries.
  { intros es [(kv & _ & Hkv)%mapM_Throw | (? & _ & ?)]%bind_Throw; [| discriminate].
    apply bind_Throw in Hkv as [Hkv | (? & _ & ?)]; [| discriminate].
    by eapply map_String_Throw. }
  destruct choices; try apply Hentries.
  intros [(c & _ & Hc)%mapM_Throw | (? & _ & ?)]%bind_Throw; [| discriminate].
  apply bind_Throw in Hc as [Hc | (l & _ & Hc)]; [by eapply member_Throw |].
  apply bind_Throw in Hc as [Hc | (sl & _ & Hc)]; [by eapply js_String_Throw |].
  apply bind_Throw in Hc as [Hc | (v & _ & Hc)]; [by eapply member_Throw |].
  apply bind_Throw in Hc as [Hc | (? & _ & ?)]; [by eapply js_String_Throw | discriminate].
Qed.

Lemma combineSchemas_typed_Throw parentMetadata selectedSchema e :
  is_Some (selectedSchema !! "type") ->
  combineSchemas parentMetadata selectedSchema = Throw e -> e = TypeError.
Proof.
  intros Ht%has_true. unfold combineSchemas. rewrite Ht.
  destruct (is_str "array" _); [discriminate |].
  destruct (is_str "object" _); [discriminate |].
  unfold createPrimitiveSchema.
  intros [H | (? & _ & ?)]%bind_Throw; [| discriminate].
  by eapply processChoices_Throw.
Qed.

(** The throw of [combineSchemas] is there: a selection with neither a
    [type] nor an [anyOf] reaches it when the merge is called on its own. *)
Example combineSchemas_unrecognized :
  combineSchemas ∅ {[ "title" := JStr "t" ]} = Throw InvalidSchemaShape.
Proof. reflexivity. Qed.

(** C10. [extractSchema] never fails with [InvalidSchemaShape]: a node
    without [anyOf] is returned unchanged whatever its shape, and in a union
    the selected representative always has a [type], so the merge takes one
    of its typed cases. *)
Theorem invalid_shape_unreachable (node : obj) :
  extractSchema node <> Throw InvalidSchemaShape /\
  (node !! "anyOf" = None ->
     extractSchema node = Ok (mkExtracted node None None false)) /\
  (forall anyOf, node !! "anyOf" = Some (JArr anyOf) ->
     nonNullSchemas anyOf <> [] ->
     exists sel, selectSchema (nonNullSchemas anyOf) = JObj sel /\
                 is_Some (sel !! "type") /\
                 is_Some (typedSelectedSchema sel !! "type")).
Proof.
  assert (forall anyOf, nonNullSchemas anyOf <> [] ->
     exists sel, selectSchema (nonNullSchemas anyOf) = JObj sel /\
                 is_Some (sel !! "type") /\
                 is_Some (typedSelectedSchema sel !! "type")) as Hsel.
  { intros anyOf (sel & Hsel & _ & Ht)%selectSchema_typed.
    exists sel. repeat split; try done. rewrite typedSelectedSchema_insert. by rewrite lookup_insert_ne. }
  split; [| split].
  - destruct (node !! "anyOf") as [v |] eqn:Hany.
    + destruct v as [| | | | | anyOf |];
        try (unfold extractSchema, isAnyOfSchema, extractFromAnyOf;
             rewrite (get_Some _ _ _ Hany);
             by destruct (has "anyOf" node)).
      destruct (decide (nonNullSchemas anyOf = [])) as [E | E].
      { by rewrite (extractSchema_empty _ _ Hany E). }
      destruct (Hsel anyOf E) as (sel & Hs & _ & Ht).
      rewrite (extractSchema_union _ _ _ Hany Hs).
      intros [H | (? & _ & ?)]%bind_Throw; [| discriminate].
      by apply combineSchemas_typed_Throw in H.
    + by rewrite extractSchema_plain.
  - apply extractSchema_plain.
  - intros anyOf _. apply Hsel.
Qed.

Lemma invalid_shape_unreachable_untyped :
  extractSchema {[ "title" := JStr "t" ]} =
    Ok (mkExtracted {[ "title" := JStr "t" ]} None None false) /\
  extractSchema ex_nested_union <> Throw InvalidSchemaShape.
Proof.
  split.
  - apply (proj1 (proj2 (invalid_shape_unreachable {[ "title" := JStr "t" ]}))).
    reflexivity.
  - apply (proj1 (invalid_shape_unreachable ex_nested_union)).
Defined.

(** ** Union elimination *)

(** C1 (as amended). The result of a successful extraction carries a
    top-level [anyOf] only when the selected representative itself carries
    one next to its [type]: a node passed through has none, and a resolved
    union has exactly the representative's. *)
Theorem anyOf_only_from_representative (node : obj) (r : ExtractedSchema) :
  extractSchema node = Ok r ->
  (node !! "anyOf" = None -> schema r !! "anyOf" = None) /\
  (forall anyOf, node !! "anyOf" = Some (JArr anyOf) ->
     exists sel, selectSchema (nonNullSchemas anyOf) = JObj sel /\
                 schema r !! "anyOf" = sel !! "anyOf").
Proof.
  intros Hr. split.
  - intros Hnone. rewrite (extractSchema_plain _ Hnone) in Hr.
    by injection Hr as <-.
  - intros anyOf Hany.
    destruct (extractSchema_union_Ok _ _ _ Hany Hr) as (sel & Hsel & _ & Hc & _).
    exists sel. split; [done |].
    rewrite (combined_anyOf _ _ _ Hc), lookup_spread_None_r by apply lookup_delete_eq.
    rewrite typedSelectedSchema_insert. by rewrite lookup_insert_ne.
Qed.

Lemma anyOf_only_from_representative_string_or_null :
  exists r, extractSchema ex_string_or_null = Ok r /\ schema r !! "anyOf" = None.
Proof.
  destruct (extractSchema ex_string_or_null) as [r |] eqn:E; [| discriminate].
  exists r. split; [reflexivity |].
  destruct (proj2 (anyOf_only_from_representative ex_string_or_null r E) _ eq_refl)
    as (sel & Hsel & ->).
  vm_compute in Hsel. injection Hsel as <-. reflexivity.
Defined.

(** A typed alternative that also lists [anyOf] is selected like any typed
    alternative, and its [anyOf] is spread into the result. *)
Lemma typed_union_keeps_anyOf :
  (exists r, extractSchema ex_typed_union = Ok r /\
             schema r !! "anyOf" =
               Some (JArr [JObj {[ "required" := JArr [JStr "a"] ]}])) /\
  ~ union_eliminated ex_typed_union.
Proof.
  assert (exists r, extractSchema ex_typed_union = Ok r /\
                    schema r !! "anyOf" =
                      Some (JArr [JObj {[ "required" := JArr [JStr "a"] ]}])) as Hex.
  { eexists. split; [vm_compute; reflexivity | vm_compute; reflexivity]. }
  split; [exact Hex |].
  destruct Hex as (r & Hr & Hany). intros H. specialize (H r Hr). congruence.
Qed.

(** ** Representative selection *)

(** C2 (as amended). The representative is chosen among the alternatives
    that have a [type] other than ["null"]: the first primitive, else the
    first array, else the first object, else the first of them in original
    order.  Without any such alternative the resolution fails. *)
Theorem representative_by_precedence (node : obj) (anyOf : list JsValue) :
  node !! "anyOf" = Some (JArr anyOf) ->
  (nonNullSchemas anyOf = [] -> extractSchema node = Throw EmptyUnionError) /\
  (nonNullSchemas anyOf <> [] ->
     exists sel,
       by_precedence anyOf (nonNullSchemas anyOf) = Some (JObj sel) /\
       selectSchema (nonNullSchemas anyOf) = JObj sel /\
       extractSchema node =
         (c ← combineSchemas (delete "anyOf" node) (typedSelectedSchema sel);
          mret (mkExtracted c None None (someNull anyOf)))).
Proof.
  intros Hany. split; [by apply extractSchema_empty |].
  intros (sel & Hsel & _ & _)%selectSchema_typed. exists sel.
  split; [| split; [done | by apply extractSchema_union]].
  rewrite selectSchema_nonNullSchemas in Hsel.
  destruct (by_precedence anyOf (nonNullSchemas anyOf)) as [v |]; [| discriminate].
  simpl in Hsel. by rewrite Hsel.
Qed.

(** In [ex_mixed_kinds] the array is preferred to the object listed before
    it, and the untyped alternative between them is not considered. *)
Lemma representative_by_precedence_array_over_object :
  exists r, extractSchema ex_mixed_kinds = Ok r /\
            schema r !! "type" = Some (JStr "array").
Proof.
  destruct (proj2 (representative_by_precedence ex_mixed_kinds _ eq_refl))
    as (sel & Hp & _ & ->).
  - vm_compute. discriminate.
  - vm_compute in Hp. injection Hp as <-.
    eexists. split; vm_compute; reflexivity.
Defined.

(** A union whose only alternative is itself a union: the alternative is
    outside the typed-null partition, yet it is filtered out for having no
    [type] and the resolution fails. *)
Lemma nested_union_not_selected :
  extractSchema ex_nested_union = Throw EmptyUnionError /\
  ~ selects_as_worded ex_nested_union.
Proof.
  split; [reflexivity |].
  intros H.
  destruct (H [JObj {[ "anyOf" := JArr [JObj {[ "type" := JStr "string" ]}] ]}] eq_refl)
    as [_ Hne].
  - vm_compute. discriminate.
  - apply Hne. reflexivity.
Qed.

(** ** Metadata inheritance *)

(** C5 (as amended). The result's [enum] is the representative's own
    [enum], entries unchanged ([undefined] when it has none), whatever
    [enum] the union carries. *)
Theorem enum_from_representative
    (node : obj) (anyOf : list JsValue) (sel : obj) (r : ExtractedSchema) :
  node !! "anyOf" = Some (JArr anyOf) ->
  selectSchema (nonNullSchemas anyOf) = JObj sel ->
  extractSchema node = Ok r ->
  schema r !! "enum" = Some (get sel "enum").
Proof.
  intros Hany Hsel Hr.
  destruct (extractSchema_union_Ok _ _ _ Hany Hr) as (sel' & Hsel' & _ & Hc & _).
  assert (sel' = sel) as -> by congruence.
  apply (combined_enum _ _ _ Hc). rewrite typedSelectedSchema_insert. apply lookup_insert_eq.
Qed.

Lemma enum_from_representative_parent_ignored :
  exists r, extractSchema ex_parent_enum = Ok r /\
            schema r !! "enum" = Some JUndefined.
Proof.
  destruct (extractSchema ex_parent_enum) as [r |] eqn:E; [| discriminate].
  exists r. split; [reflexivity |].
  rewrite (enum_from_representative ex_parent_enum
             [JObj {[ "type" := JStr "string" ]}] {[ "type" := JStr "string" ]} r
             eq_refl eq_refl E).
  reflexivity.
Defined.

(** An [enum] of numbers stays an [enum] of numbers. *)
Lemma enum_entries_not_coerced :
  (exists r, extractSchema ex_int_enum = Ok r /\
             schema r !! "enum" = Some (JArr [JNum 1; JNum 2]) /\
             enum_as_strings (JArr [JNum 1; JNum 2]) = JArr [JStr "1"; JStr "2"]) /\
  ~ enum_coerced ex_int_enum.
Proof.
  assert (exists r, extractSchema ex_int_enum = Ok r /\
                    schema r !! "enum" = Some (JArr [JNum 1; JNum 2])) as (r & Hr & He).
  { eexists. split; vm_compute; reflexivity. }
  split; [exists r; repeat split; done |].
  intros H.
  specialize (H [JObj {[ "type" := JStr "integer"; "enum" := JArr [JNum 1; JNum 2] ]}]
                {[ "type" := JStr "integer"; "enum" := JArr [JNum 1; JNum 2] ]}
                (JArr [JNum 1; JNum 2]) r eq_refl eq_refl eq_refl Hr).
  rewrite He in H. discriminate.
Qed.

(** C6 (as amended). The result's [title] and [description] are the
    representative's when that value is truthy (present and not empty),
    else the union's. *)
Theorem title_description_inherited
    (node : obj) (anyOf : list JsValue) (sel : obj) (r : ExtractedSchema) :
  node !! "anyOf" = Some (JArr anyOf) ->
  selectSchema (nonNullSchemas anyOf) = JObj sel ->
  extractSchema node = Ok r ->
  schema r !! "title" =
    Some (if truthy (get sel "title") then get sel "title" else get node "title") /\
  schema r !! "description" =
    Some (if truthy (get sel "description") then get sel "description"
          else get node "description").
Proof.
  intros Hany Hsel Hr.
  destruct (extractSchema_union_Ok _ _ _ Hany Hr) as (sel' & Hsel' & _ & Hc & _).
  assert (sel' = sel) as -> by congruence.
  rewrite (combined_title _ _ _ Hc), (combined_description _ _ _ Hc).
  rewrite !get_typed, !get_delete_ne by done. done.
Qed.

Lemma title_description_inherited_from_union :
  exists r, extractSchema ex_titled = Ok r /\
            schema r !! "title" = Some (JStr "Name").
Proof.
  destruct (extractSchema ex_titled) as [r |] eqn:E; [| discriminate].
  exists r. split; [reflexivity |].
  rewrite (proj1 (title_description_inherited ex_titled
             [JObj {[ "type" := JStr "string" ]}] {[ "type" := JStr "string" ]} r
             eq_refl eq_refl E)).
  reflexivity.
Defined.

(** A representative whose [title] is present but empty takes the union's
    title. *)
Lemma empty_title_not_kept :
  (exists r, extractSchema ex_empty_title = Ok r /\
             schema r !! "title" = Some (JStr "Name")) /\
  ~ child_if_present "title" ex_empty_title.
Proof.
  assert (exists r, extractSchema ex_empty_title = Ok r /\
                    schema r !! "title" = Some (JStr "Name")) as (r & Hr & Ht).
  { eexists. split; vm_compute; reflexivity. }
  split; [by exists r |].
  intros H.
  specialize (H [JObj {[ "type" := JStr "string"; "title" := JStr "" ]}]
                {[ "type" := JStr "string"; "title" := JStr "" ]}
                r eq_refl eq_refl Hr).
  unfold get in H. rewrite Ht in H. discriminate.
Qed.

(** C7 (as amended). The result's [default] is the representative's unless
    that is [undefined] or [null] -- so [false], [0] and the empty string are
    kept -- and the union's otherwise. *)
Theorem default_inherited
    (node : obj) (anyOf : list JsValue) (sel : obj) (r : ExtractedSchema) :
  node !! "anyOf" = Some (JArr anyOf) ->
  selectSchema (nonNullSchemas anyOf) = JObj sel ->
  extractSchema node = Ok r ->
  schema r !! "default" =
    Some (if nullish (get sel "default") then get node "default"
          else get sel "default").
Proof.
  intros Hany Hsel Hr.
  destruct (extractSchema_union_Ok _ _ _ Hany Hr) as (sel' & Hsel' & _ & Hc & _).
  assert (sel' = sel) as -> by congruence.
  rewrite (combined_default _ _ _ Hc).
  rewrite !get_typed, !get_delete_ne by done. done.
Qed.

Lemma default_inherited_false_kept :
  exists r, extractSchema ex_false_default = Ok r /\
            schema r !! "default" = Some (JBool false).
Proof.
  destruct (extractSchema ex_false_default) as [r |] eqn:E; [| discriminate].
  exists r. split; [reflexivity |].
  rewrite (default_inherited ex_false_default
             [JObj {[ "type" := JStr "boolean"; "default" := JBool false ]}]
             {[ "type" := JStr "boolean"; "default" := JBool false ]} r
             eq_refl eq_refl E).
  reflexivity.
Defined.

(** A representative whose [default] is present but [null] takes the
    union's default. *)
Lemma null_default_not_kept :
  (exists r, extractSchema ex_null_default = Ok r /\
             schema r !! "default" = Some (JStr "x")) /\
  ~ child_if_present "default" ex_null_default.
Proof.
  assert (exists r, extractSchema ex_null_default = Ok r /\
                    schema r !! "default" = Some (JStr "x")) as (r & Hr & Hd).
  { eexists. split; vm_compute; reflexivity. }
  split; [by exists r |].
  intros H.
  specialize (H [JObj {[ "type" := JStr "string"; "default" := JNull ]}]
                {[ "type" := JStr "string"; "default" := JNull ]}
                r eq_refl eq_refl Hr).
  unfold get in H. rewrite Hd in H. discriminate.
Qed.

(** ** Choices *)

Lemma mapM_decided {A B} (f : A -> result B) (ok : A -> bool) (h : A -> B) l :
  (forall x, In x l -> f x = if ok x then Ok (h x) else Throw TypeError) ->
  mapM f l = if forallb ok l then Ok (List.map h l) else Throw TypeError.
Proof.
  induction l as [| x l IH]; intros Hf; [reflexivity |].
  cbn [mapM forallb List.map]. rewrite (Hf x) by (by left).
  rewrite IH by (intros y Hy; apply Hf; by right).
  by destruct (ok x), (forallb ok l).
Qed.

Lemma js_String_decided v :
  js_String v = if printable v then Ok (string_form v) else Throw TypeError.
Proof. unfold js_String, printable, string_form. by destruct (toString v). Qed.

Lemma map_String_decided v :
  map_String v = if group_ok v then Ok (canonical_group v) else Throw TypeError.
Proof.
  destruct v as [| | | | | vs |]; try reflexivity.
  cbn [map_String group_ok]. unfold canonical_group. cbn [elements_of].
  rewrite (mapM_decided _ printable (fun e => JStr (string_form e))).
  - by destruct (forallb printable vs).
  - intros e _. rewrite js_String_decided. by destruct (printable e).
Qed.

Lemma processChoices_pairs cs :
  processChoices (JArr cs) =
  if forallb pair_ok cs then Ok (JArr (List.map canonical_pair cs))
  else Throw TypeError.
Proof.
  unfold processChoices. cbn [truthy].
  rewrite (mapM_decided _ pair_ok canonical_pair).
  - by destruct (forallb pair_ok cs).
  - intros c _. unfold pair_ok, canonical_pair.
    destruct c; try reflexivity; cbn [member field nullish negb andb];
      cbn [mbind result_bind]; rewrite !js_String_decided;
      destruct (printable _); cbn [andb]; try reflexivity;
      destruct (printable _); reflexivity.
Qed.

Lemma processChoices_groups (groups : obj) :
  processChoices (JObj groups) =
  if forallb (fun kv => group_ok kv.2) (map_to_list groups)
  then Ok (JObj (canonical_group <$> groups))
  else Throw TypeError.
Proof.
  unfold processChoices. cbn [truthy entries].
  rewrite (mapM_decided _ (fun kv => group_ok kv.2) (prod_map id canonical_group)).
  - destruct (forallb _ _); [| reflexivity]. cbn. do 2 f_equal.
    change (List.map (prod_map id canonical_group) (map_to_list groups))
      with (prod_map id canonical_group <$> map_to_list groups).
    by rewrite list_to_map_fmap, list_to_map_to_list.
  - intros [k v] _. cbn [fst snd]. rewrite map_String_decided.
    by destruct (group_ok v).
Qed.

(** Normalizing a truthy value: decided by [choices_ok]. *)
Lemma processChoices_decided c :
  truthy c = true ->
  processChoices c =
  if choices_ok c then Ok (canonical_choices c) else Throw TypeError.
Proof.
  destruct c as [| | b | n | s | cs | groups]; try discriminate; intros Ht.
  - cbn in Ht. by subst b.
  - unfold processChoices. by rewrite Ht.
  - destruct s as [| a s]; [discriminate | reflexivity].
  - apply processChoices_pairs.
  - apply processChoices_groups.
Qed.

Lemma guarded_choices (o : obj) :
  js_and (JBool (has "choices" o)) (get o "choices") = get o "choices" \/
  (truthy (js_and (JBool (has "choices" o)) (get o "choices")) = false /\
   truthy (get o "choices") = false).
Proof.
  unfold has, get, js_and. destruct (o !! "choices") as [c |].
  - left. by rewrite bool_decide_eq_true_2 by eauto.
  - right. by rewrite bool_decide_eq_false_2 by (by intros [? ?]).
Qed.

(** The chain of [in], [&&] and [||] takes the child's choices when they
    are truthy, else the parent's when those are. *)
Lemma pickChoices_truthy (parentMetadata selectedSchema : obj) :
  pickChoices parentMetadata selectedSchema =
  choices_truthy_child_else_parent parentMetadata selectedSchema.
Proof.
  unfold pickChoices, choices_truthy_child_else_parent.
  destruct (guarded_choices selectedSchema) as [-> | [Hs ->]];
    destruct (guarded_choices parentMetadata) as [-> | [Hp ->]].
  - destruct (truthy (get selectedSchema "choices")) eqn:Hc.
    + by rewrite !js_or_truthy by (rewrite ?js_or_truthy; done).
    + rewrite (js_or_falsy (get selectedSchema "choices")) by done.
      destruct (truthy (get parentMetadata "choices")) eqn:Hq;
        [by rewrite js_or_truthy | by rewrite js_or_falsy].
  - destruct (truthy (get selectedSchema "choices")) eqn:Hc.
    + by rewrite !js_or_truthy by (rewrite ?js_or_truthy; done).
    + rewrite (js_or_falsy (get selectedSchema "choices")) by done.
      by rewrite js_or_falsy.
  - rewrite (js_or_falsy (js_and _ _)) by done.
    destruct (truthy (get parentMetadata "choices")) eqn:Hq;
      [by rewrite js_or_truthy | by rewrite js_or_falsy].
  - rewrite (js_or_falsy (js_and _ _)) by done. by rewrite js_or_falsy.
Qed.

Lemma choices_truthy_child_else_parent_cases (parent child : obj) :
  truthy (choices_truthy_child_else_parent parent child) = true \/
  choices_truthy_child_else_parent parent child = JUndefined.
Proof.
  unfold choices_truthy_child_else_parent.
  destruct (truthy (get child "choices")) eqn:Hc; [by left |].
  destruct (truthy (get parent "choices")) eqn:Hp; [by left | by right].
Qed.

Lemma choices_truthy_child_else_parent_node node sel :
  choices_truthy_child_else_parent (delete "anyOf" node) (typedSelectedSchema sel) =
  choices_truthy_child_else_parent node sel.
Proof.
  unfold choices_truthy_child_else_parent.
  by rewrite get_typed, get_delete_ne.
Qed.

Lemma combineSchemas_primitive (parentMetadata sel : obj) :
  isPrimitive (JObj sel) = true ->
  combineSchemas parentMetadata (typedSelectedSchema sel) =
  createPrimitiveSchema parentMetadata (typedSelectedSchema sel) (get sel "type").
Proof.
  unfold isPrimitive. cbn [hasType type_of].
  intros [Ht Hk]%andb_true_iff. unfold combineSchemas.
  assert (has "type" (typedSelectedSchema sel) = true) as ->.
  { apply has_true. rewrite typedSelectedSchema_insert.
    rewrite lookup_insert_ne by done. by apply has_true. }
  rewrite get_typed by done.
  repeat apply orb_true_iff in Hk as [Hk | Hk];
    apply is_str_true in Hk; rewrite Hk; reflexivity.
Qed.

(** The resolution of a union to a primitive, decided by the choices it
    takes. *)
Lemma primitive_resolution node anyOf sel :
  node !! "anyOf" = Some (JArr anyOf) ->
  selectSchema (nonNullSchemas anyOf) = JObj sel ->
  isPrimitive (JObj sel) = true ->
  (choices_ok (choices_truthy_child_else_parent node sel) = true ->
   exists r, extractSchema node = Ok r /\
             schema r !! "choices" =
               Some (canonical_choices (choices_truthy_child_else_parent node sel))) /\
  (choices_ok (choices_truthy_child_else_parent node sel) = false ->
   extractSchema node = Throw TypeError).
Proof.
  intros Hany Hsel Hprim.
  rewrite (extractSchema_union _ _ _ Hany Hsel), (combineSchemas_primitive _ _ Hprim).
  unfold createPrimitiveSchema.
  rewrite pickChoices_truthy, choices_truthy_child_else_parent_node.
  destruct (choices_truthy_child_else_parent_cases node sel) as [Ht | Hu].
  - rewrite (processChoices_decided _ Ht). split; intros ->; [| reflexivity].
    eexists. split; [reflexivity |]. cbn [schema]. by read_props.
  - rewrite Hu. split; [intros _ | discriminate].
    eexists. split; [reflexivity |]. cbn [schema]. by read_props.
Qed.


(** Literals beyond [2^53] print as their doubles do. *)
Example number_to_string_doubles :
  number_to_string (10 ^ 21) = "1e+21" /\
  number_to_string (2 ^ 64) = "18446744073709552000" /\
  number_to_string (2 ^ 53 + 1) = "9007199254740992" /\
  number_to_string (- (10 ^ 23)) = "-1e+23" /\
  number_to_string 123456789012345678901234567890 = "1.2345678901234568e+29".
Proof. repeat split; vm_compute; reflexivity. Qed.





(** ** Failures of the dispatcher *)

Lemma nonNullSchemas_nil anyOf :
  nonNullSchemas anyOf = [] <->
  Forall (fun v => hasType v = false \/ null_typed v) anyOf.
Proof.
  unfold nonNullSchemas. induction anyOf as [| v l IH]; [by split |].
  cbn [List.filter]. rewrite Forall_cons, <- IH.
  destruct (hasType v) eqn:Ht; cbn [andb].
  - destruct (is_str "null" (type_of v)) eqn:Hn; cbn [negb].
    + split; [intros ?; split; [right | done] | by intros [_ ?]].
      apply null_typed_iff. by rewrite Ht, Hn.
    + split; [discriminate |]. intros [[? | Hv%null_typed_iff] _]; [done |].
      rewrite Ht, Hn in Hv. discriminate.
  - split; [intros ?; split; [by left | done] | by intros [_ ?]].
Qed.

Lemma extractSchema_not_array node v :
  node !! "anyOf" = Some v -> is_array v = false ->
  extractSchema node = Throw TypeError.
Proof.
  intros Hany Hv. unfold extractSchema, isAnyOfSchema.
  rewrite (proj2 (has_true _ _)) by (rewrite Hany; eauto).
  unfold extractFromAnyOf. rewrite (get_Some _ _ _ Hany).
  by destruct v.
Qed.

(** X1. [extractSchema] fails with [EmptyUnionError] exactly on a node
    whose [anyOf] is an array in which every alternative either has no
    [type] or is typed ["null"]. *)
Theorem empty_union_error_iff (node : obj) :
  extractSchema node = Throw EmptyUnionError <->
  exists anyOf, node !! "anyOf" = Some (JArr anyOf) /\
                Forall (fun v => hasType v = false \/ null_typed v) anyOf.
Proof.
  split.
  - intros He. destruct (node !! "anyOf") as [v |] eqn:Hany.
    + destruct (is_array v) eqn:Hv.
      * destruct v as [| | | | | anyOf |]; try discriminate.
        exists anyOf. split; [done |]. apply nonNullSchemas_nil.
        destruct (decide (nonNullSchemas anyOf = [])) as [E | E]; [done |].
        destruct (selectSchema_typed anyOf E) as (sel & Hsel & _ & Ht).
        rewrite (extractSchema_union _ _ _ Hany Hsel) in He.
        apply bind_Throw in He as [He | (? & _ & ?)]; [| discriminate].
        apply combineSchemas_typed_Throw in He; [discriminate |].
        rewrite typedSelectedSchema_insert. by rewrite lookup_insert_ne.
      * rewrite (extractSchema_not_array _ _ Hany Hv) in He. discriminate.
    + rewrite (extractSchema_plain _ Hany) in He. discriminate.
  - intros (anyOf & Hany & Hall%nonNullSchemas_nil).
    by apply (extractSchema_empty _ anyOf).
Qed.

Lemma empty_union_error_iff_nested :
  extractSchema ex_nested_union = Throw EmptyUnionError.
Proof.
  apply (proj2 (empty_union_error_iff ex_nested_union)).
  eexists. split; [reflexivity |]. repeat constructor.
Defined.

(** X2. A node whose [anyOf] field is present but is not an array makes
    [extractSchema] fail with a [TypeError]: the presence of the key alone
    routes the node to the union resolver. *)
Theorem anyOf_not_array_fails (node : obj) (v : JsValue) :
  node !! "anyOf" = Some v ->
  is_array v = false ->
  extractSchema node = Throw TypeError /\
  extractFromAnyOf node = Throw TypeError.
Proof.
  intros Hany Hv. split; [by eapply extractSchema_not_array |].
  unfold extractFromAnyOf. rewrite (get_Some _ _ _ Hany). by destruct v.
Qed.

Lemma anyOf_not_array_fails_null :
  extractSchema ex_anyOf_null = Throw TypeError.
Proof.
  apply (proj1 (anyOf_not_array_fails ex_anyOf_null JNull eq_refl eq_refl)).
Defined.

(** ** The merge called on its own *)

(** X3. [combineSchemas] fails with [InvalidSchemaShape] exactly when the
    selected schema has neither a [type] nor an [anyOf] field. *)
Theorem combineSchemas_invalid_iff (parentMetadata selectedSchema : obj) :
  combineSchemas parentMetadata selectedSchema = Throw InvalidSchemaShape <->
  selectedSchema !! "type" = None /\ selectedSchema !! "anyOf" = None.
Proof.
  split.
  - intros He. destruct (selectedSchema !! "type") as [t |] eqn:Ht.
    { apply combineSchemas_typed_Throw in He; [discriminate | by rewrite Ht]. }
    split; [done |]. unfold combineSchemas in He.
    rewrite (proj2 (has_false _ _) Ht) in He.
    destruct (has "anyOf" selectedSchema) eqn:Ha; [discriminate |].
    by apply has_false.
  - intros [Ht%has_false Ha%has_false]. unfold combineSchemas.
    by rewrite Ht, Ha.
Qed.

Lemma combineSchemas_invalid_iff_titled :
  combineSchemas ex_nested_parent {[ "title" := JStr "t" ]} =
    Throw InvalidSchemaShape.
Proof.
  apply (proj2 (combineSchemas_invalid_iff ex_nested_parent {[ "title" := JStr "t" ]})).
  split; reflexivity.
Defined.

(** X4. On a selected schema without [type] but with [anyOf], the merge is
    a plain shallow merge: every property of the selected schema is kept as
    it is (an empty [title] included, and its [anyOf]), and the parent only
    supplies the properties the selected schema lacks. *)
Theorem combineSchemas_nested_union (parentMetadata selectedSchema : obj) :
  selectedSchema !! "type" = None ->
  is_Some (selectedSchema !! "anyOf") ->
  exists c,
    combineSchemas parentMetadata selectedSchema = Ok c /\
    forall k, c !! k = match selectedSchema !! k with
                       | Some v => Some v
                       | None => parentMetadata !! k
                       end.
Proof.
  intros Ht%has_false Ha%has_true. unfold combineSchemas. rewrite Ht, Ha.
  eexists. split; [reflexivity |]. intros k. unfold spread.
  rewrite lookup_union. by destruct (selectedSchema !! k), (parentMetadata !! k).
Qed.

Lemma combineSchemas_nested_union_empty_title :
  exists c, combineSchemas ex_nested_parent ex_nested_child = Ok c /\
            c !! "title" = Some (JStr "") /\
            c !! "x" = Some (JNum 1) /\
            is_Some (c !! "anyOf").
Proof.
  destruct (combineSchemas_nested_union ex_nested_parent ex_nested_child eq_refl)
    as (c & Hc & Hk); [by eexists |].
  exists c. split; [exact Hc |]. rewrite !Hk. repeat split. by eexists.
Defined.

(** ** What a resolved union holds *)

(** Closes [k ∉ keys] for a literal key and the key lists above. *)
Ltac not_listed :=
  unfold assigned_keys, primitive_keys; cbn [app];
  rewrite ?not_elem_of_cons; repeat split;
  first [done | apply not_elem_of_nil].

Lemma structuralSchema_other kind (parentMetadata selectedSchema : obj) k :
  k ∉ assigned_keys ->
  structuralSchema kind parentMetadata selectedSchema !! k =
  spread parentMetadata selectedSchema !! k.
Proof.
  unfold assigned_keys. rewrite !not_elem_of_cons. intros (? & ? & ? & ? & _).
  by read_props.
Qed.

Lemma combined_other (parentMetadata selectedSchema c : obj) k :
  combined parentMetadata selectedSchema c ->
  k ∉ (assigned_keys ++ primitive_keys)%list ->
  c !! k = spread parentMetadata selectedSchema !! k.
Proof.
  intros Hc Hk. apply not_elem_of_app in Hk as [Hk Hp].
  destruct Hc; try by apply structuralSchema_other.
  revert Hk Hp. unfold assigned_keys, primitive_keys.
  rewrite !not_elem_of_cons. intros (? & ? & ? & ? & _) (? & ? & _).
  by read_props.
Qed.

Lemma lookup_spread_merge (a b : obj) k :
  spread a b !! k = match b !! k with Some v => Some v | None => a !! k end.
Proof.
  unfold spread. rewrite lookup_union. by destruct (b !! k), (a !! k).
Qed.

Lemma lookup_typed sel k :
  k <> "enum" -> typedSelectedSchema sel !! k = sel !! k.
Proof. intros Hk. rewrite typedSelectedSchema_insert. by rewrite lookup_insert_ne. Qed.

(** X5. The [type] of a resolved union is the [type] of one of the listed
    alternatives, and it is never ["null"]. *)
Theorem resolved_type_listed (node : obj) (anyOf : list JsValue) (r : ExtractedSchema) :
  node !! "anyOf" = Some (JArr anyOf) ->
  extractSchema node = Ok r ->
  exists sel t,
    In (JObj sel) anyOf /\ sel !! "type" = Some t /\
    t <> JStr "null" /\ schema r !! "type" = Some t.
Proof.
  intros Hany Hr.
  destruct (extractSchema_union_Ok _ _ _ Hany Hr) as (sel & Hsel & [t Ht] & Hc & _).
  destruct (selectSchema_typed anyOf (selectSchema_object_nonempty _ _ Hsel))
    as (sel' & Hsel' & Hin & _).
  assert (sel' = sel) as -> by congruence.
  apply nonNullSchemas_In in Hin as (Hin & _ & Hn).
  exists sel, t. repeat split; try done.
  - intros ->. cbn [type_of] in Hn. by rewrite (get_Some _ _ _ Ht) in Hn.
  - rewrite (combined_type _ _ _ Hc), get_typed by done.
    by rewrite (get_Some _ _ _ Ht).
Qed.

Lemma resolved_type_listed_string_or_null :
  exists r t, extractSchema ex_string_or_null = Ok r /\
              schema r !! "type" = Some t /\ t <> JStr "null".
Proof.
  destruct (extractSchema ex_string_or_null) as [r |] eqn:E; [| discriminate].
  destruct (resolved_type_listed ex_string_or_null _ r eq_refl E)
    as (sel & t & _ & _ & Hn & Ht).
  by exists r, t.
Defined.

(** X6. Every other property of a resolved union is shallow-merged: for a
    key the merge does not assign ([type], [title], [description],
    [default], [enum], [choices]) and other than [anyOf], the result has the
    representative's value if the representative has the key, else the
    union's. *)
Theorem other_properties_merged
    (node : obj) (anyOf : list JsValue) (sel : obj) (r : ExtractedSchema) (k : string) :
  node !! "anyOf" = Some (JArr anyOf) ->
  selectSchema (nonNullSchemas anyOf) = JObj sel ->
  extractSchema node = Ok r ->
  k ∉ "anyOf" :: (assigned_keys ++ primitive_keys)%list ->
  schema r !! k = match sel !! k with Some v => Some v | None => node !! k end.
Proof.
  intros Hany Hsel Hr [Ha Hk]%not_elem_of_cons.
  destruct (extractSchema_union_Ok _ _ _ Hany Hr) as (sel' & Hsel' & _ & Hc & _).
  assert (sel' = sel) as -> by congruence.
  rewrite (combined_other _ _ _ _ Hc Hk), lookup_spread_merge.
  revert Ha Hk. unfold assigned_keys, primitive_keys. cbn [app].
  rewrite !not_elem_of_cons. intros ? (_ & _ & _ & _ & ? & _).
  by rewrite lookup_typed, lookup_delete_ne.
Qed.

Lemma other_properties_merged_items :
  exists r, extractSchema ex_array_items = Ok r /\
            schema r !! "items" = Some (JObj {[ "type" := JStr "integer" ]}) /\
            schema r !! "x-parameter" = Some (JStr "multiple_choice").
Proof.
  destruct (extractSchema ex_array_items) as [r |] eqn:E; [| discriminate].
  exists r. split; [reflexivity |].
  pose proof (fun k => other_properties_merged ex_array_items _ _ r k
                         eq_refl eq_refl E) as H.
  rewrite !H by not_listed. split; reflexivity.
Defined.

(** X7. A union resolved to an array or an object always succeeds, and its
    [choices] are not normalized: the representative's [choices] if it has
    the key, else the union's, as they are. *)
Theorem structural_resolution (node : obj) (anyOf : list JsValue) (sel : obj) :
  node !! "anyOf" = Some (JArr anyOf) ->
  selectSchema (nonNullSchemas anyOf) = JObj sel ->
  isArray (JObj sel) || isObject (JObj sel) = true ->
  exists r,
    extractSchema node = Ok r /\
    schema r !! "type" = sel !! "type" /\
    schema r !! "choices" =
      match sel !! "choices" with Some v => Some v | None => node !! "choices" end.
Proof.
  intros Hany Hsel Hk.
  rewrite (extractSchema_union _ _ _ Hany Hsel). unfold combineSchemas.
  assert (has "type" sel = true /\
          exists kind, get sel "type" = JStr kind /\
                       (kind = "array" \/ kind = "object")) as (Ht & kind & Hty & Hkind).
  { unfold isArray, isObject in Hk. cbn [hasType type_of] in Hk.
    apply orb_true_iff in Hk as [[? ?%is_str_true]%andb_true_iff |
                                 [? ?%is_str_true]%andb_true_iff]; eauto 6. }
  assert (has "type" (typedSelectedSchema sel) = true) as ->.
  { apply has_true. rewrite lookup_typed by done. by apply has_true. }
  rewrite get_typed, Hty by done.
  assert (sel !! "type" = Some (JStr kind)) as Hl.
  { apply has_true in Ht as [t Ht]. by rewrite Ht, <- Hty, (get_Some _ _ _ Ht). }
  destruct Hkind as [-> | ->]; cbn [is_str String.eqb Ascii.eqb Bool.eqb];
    (eexists; split; [reflexivity |]; cbn [schema]; split;
     [ by read_props
     | rewrite structuralSchema_other by not_listed;
       rewrite lookup_spread_merge, lookup_typed, lookup_delete_ne by done;
       done ]).
Qed.

Lemma structural_resolution_raw_choices :
  exists r, extractSchema ex_array_items = Ok r /\
            schema r !! "choices" = Some (JArr [JNull]).
Proof.
  destruct (structural_resolution ex_array_items _ _ eq_refl eq_refl eq_refl)
    as (r & Hr & _ & Hc).
  exists r. split; [exact Hr |]. rewrite Hc. reflexivity.
Defined.

(** X8. Every successful extraction leaves [parentTitle] and
    [parentDescription] unset, and a resolved union always has the
    properties [type], [title], [description], [default] and [enum], be it
    with the value [undefined]. *)
Theorem result_fields (node : obj) (r : ExtractedSchema) :
  extractSchema node = Ok r ->
  parentTitle r = None /\ parentDescription r = None /\
  (is_Some (node !! "anyOf") ->
   Forall (fun k => is_Some (schema r !! k)) (assigned_keys ++ ["enum"])).
Proof.
  intros Hr. destruct (node !! "anyOf") as [v |] eqn:Hany.
  - destruct (is_array v) eqn:Hv.
    2: { rewrite (extractSchema_not_array _ _ Hany Hv) in Hr. discriminate. }
    destruct v as [| | | | | anyOf |]; try discriminate.
    destruct (extractSchema_union_Ok _ _ _ Hany Hr) as (sel & Hsel & _ & Hc & _).
    rewrite (extractSchema_union _ _ _ Hany Hsel) in Hr.
    apply bind_Ok in Hr as (c & _ & [= <-]). repeat split.
    intros _. cbn [schema] in *.
    repeat constructor.
    + by rewrite (combined_type _ _ _ Hc).
    + by rewrite (combined_title _ _ _ Hc).
    + by rewrite (combined_description _ _ _ Hc).
    + by rewrite (combined_default _ _ _ Hc).
    + erewrite (combined_enum _ _ _ Hc); [done |].
      rewrite typedSelectedSchema_insert. apply lookup_insert_eq.
  - rewrite (extractSchema_plain _ Hany) in Hr. injection Hr as <-.
    repeat split. by intros [? ?].
Qed.

Lemma result_fields_string_or_null :
  exists r, extractSchema ex_string_or_null = Ok r /\
            parentTitle r = None /\ schema r !! "title" = Some JUndefined.
Proof.
  destruct (extractSchema ex_string_or_null) as [r |] eqn:E; [| discriminate].
  destruct (result_fields ex_string_or_null r E) as (Ht & _ & _).
  exists r. repeat split; [exact Ht |].
  vm_compute in E. injection E as <-. reflexivity.
Defined.

(** ** Null alternatives *)

Lemma is_null_typed_eq v :
  is_null_typed v = hasType v && is_str "null" (type_of v).
Proof.
  destruct v as [| | | | | | o]; try reflexivity.
  cbn [is_null_typed hasType type_of]. unfold has, get.
  destruct (o !! "type") as [t |]; [| reflexivity].
  rewrite bool_decide_eq_true_2 by eauto. by destruct t.
Qed.

Lemma nonNullSchemas_others anyOf :
  nonNullSchemas (others anyOf) = nonNullSchemas anyOf.
Proof.
  unfold nonNullSchemas, others. induction anyOf as [| v l IH]; [reflexivity |].
  cbn [List.filter]. rewrite is_null_typed_eq.
  destruct (hasType v) eqn:Ht; destruct (is_str "null" (type_of v)) eqn:Hn;
    cbn [andb negb List.filter]; rewrite ?Ht, ?Hn; cbn [andb negb];
    by rewrite IH.
Qed.

Lemma someNull_others anyOf : someNull (others anyOf) = false.
Proof.
  unfold someNull, others. induction anyOf as [| v l IH]; [reflexivity |].
  cbn [List.filter]. destruct (is_null_typed v) eqn:E; cbn [negb]; [done |].
  cbn [existsb]. by rewrite <- is_null_typed_eq, E.
Qed.

(** X9. The alternatives typed ["null"] decide [isNullable] and nothing
    else: with them removed from the list, the extraction succeeds or fails
    as before and returns the same schema, with [isNullable] false. *)
Theorem null_alternatives_only_nullability (node : obj) (anyOf : list JsValue) :
  node !! "anyOf" = Some (JArr anyOf) ->
  extractSchema (<["anyOf" := JArr (others anyOf)]> node) =
    (r ← extractSchema node;
     mret (mkExtracted (schema r) (parentTitle r) (parentDescription r) false)).
Proof.
  intros Hany.
  assert ((<["anyOf" := JArr (others anyOf)]> node) !! "anyOf" =
          Some (JArr (others anyOf))) as Hany' by apply lookup_insert_eq.
  destruct (decide (nonNullSchemas anyOf = [])) as [E | E].
  - rewrite (extractSchema_empty _ _ Hany E).
    apply (extractSchema_empty _ _ Hany'). by rewrite nonNullSchemas_others.
  - destruct (selectSchema_typed anyOf E) as (sel & Hsel & _ & _).
    rewrite (extractSchema_union _ _ _ Hany Hsel).
    rewrite (extractSchema_union _ _ sel Hany') by by rewrite nonNullSchemas_others.
    rewrite delete_insert_eq, someNull_others.
    by destruct (combineSchemas _ _).
Qed.

Lemma null_alternatives_only_nullability_string :
  extractSchema {[ "anyOf" := JArr [JObj {[ "type" := JStr "string" ]}] ]} =
    (r ← extractSchema ex_string_or_null;
     mret (mkExtracted (schema r) (parentTitle r) (parentDescription r) false)).
Proof.
  exact (null_alternatives_only_nullability ex_string_or_null _ eq_refl).
Defined.

(** X10. Extracting again from the schema of a resolved union whose
    representative had no [anyOf] changes nothing in the schema, and reports
    it as not nullable. *)
Theorem re_extraction
    (node : obj) (anyOf : list JsValue) (sel : obj) (r : ExtractedSchema) :
  node !! "anyOf" = Some (JArr anyOf) ->
  selectSchema (nonNullSchemas anyOf) = JObj sel ->
  sel !! "anyOf" = None ->
  extractSchema node = Ok r ->
  extractSchema (schema r) = Ok (mkExtracted (schema r) None None false).
Proof.
  intros Hany Hsel Hnone Hr.
  destruct (extractSchema_union_Ok _ _ _ Hany Hr) as (sel' & Hsel' & _ & Hc & _).
  assert (sel' = sel) as -> by congruence.
  apply extractSchema_plain.
  rewrite (combined_anyOf _ _ _ Hc), lookup_spread_merge.
  by rewrite lookup_typed, Hnone, lookup_delete_eq.
Qed.

Lemma re_extraction_string_or_null :
  exists r, extractSchema ex_string_or_null = Ok r /\
            isNullable r = true /\
            extractSchema (schema r) = Ok (mkExtracted (schema r) None None false).
Proof.
  destruct (extractSchema ex_string_or_null) as [r |] eqn:E; [| discriminate].
  exists r. split; [reflexivity |]. split.
  - vm_compute in E. by injection E as <-.
  - exact (re_extraction ex_string_or_null _ _ r eq_refl eq_refl eq_refl E).
Defined.

(** ** Choices that are not well formed *)

Lemma child_choices_taken (node sel : obj) c :
  sel !! "choices" = Some c -> truthy c = true ->
  choices_truthy_child_else_parent node sel = c.
Proof.
  intros Hc Ht. unfold choices_truthy_child_else_parent.
  by rewrite (get_Some _ _ _ Hc), Ht.
Qed.

Lemma forallb_false_In {A} (p : A -> bool) (l : list A) x :
  In x l -> p x = false -> forallb p l = false.
Proof.
  intros Hin Hx. destruct (forallb p l) eqn:E; [| reflexivity].
  rewrite forallb_forall in E. by rewrite (E x Hin) in Hx.
Qed.

(** X11. When the primitive representative's [choices] is an array, the
    resolution succeeds exactly when every entry can be read and printed,
    each entry becoming the pair of the strings of its [label] and [value];
    otherwise it fails with a [TypeError].  An entry [null] or [undefined],
    and a label that is an object with a [toString] of its own, make it
    fail; an entry that is not an object (a plain string, say) becomes the
    pair of the strings ["undefined"]. *)
Theorem choices_array_entries
    (node : obj) (anyOf : list JsValue) (sel : obj) (cs : list JsValue) :
  node !! "anyOf" = Some (JArr anyOf) ->
  selectSchema (nonNullSchemas anyOf) = JObj sel ->
  isPrimitive (JObj sel) = true ->
  sel !! "choices" = Some (JArr cs) ->
  (forallb pair_ok cs = true ->
   exists r, extractSchema node = Ok r /\
             schema r !! "choices" = Some (JArr (List.map canonical_pair cs))) /\
  (forallb pair_ok cs = false -> extractSchema node = Throw TypeError) /\
  (has_nullish cs = true -> extractSchema node = Throw TypeError) /\
  (forall c (o : obj), In c cs -> field c "label" = JObj o ->
     is_Some (o !! "toString") -> extractSchema node = Throw TypeError) /\
  (forall c, is_object c = false -> nullish c = false ->
     pair_ok c = true /\
     canonical_pair c = JObj {[ "label" := JStr "undefined";
                                "value" := JStr "undefined" ]}).
Proof.
  intros Hany Hsel Hprim Hc.
  destruct (primitive_resolution _ _ _ Hany Hsel Hprim) as [Hok Hfail].
  rewrite (child_choices_taken node sel _ Hc) in Hok, Hfail by done.
  cbn [choices_ok canonical_choices] in Hok, Hfail.
  split; [exact Hok |]. split; [exact Hfail |]. split; [| split].
  - intros (c & Hin & Hn)%existsb_exists. apply Hfail.
    apply (forallb_false_In _ _ c Hin). unfold pair_ok. by rewrite Hn.
  - intros c o Hin Hl Ho. apply Hfail.
    apply (forallb_false_In _ _ c Hin). unfold pair_ok, printable.
    rewrite Hl. cbn [toString]. rewrite (proj2 (has_true _ _) Ho).
    by destruct (nullish c).
  - intros c Hobj Hn. by destruct c.
Qed.

Lemma choices_array_entries_samples :
  extractSchema ex_null_choice = Throw TypeError /\
  extractSchema ex_own_toString = Throw TypeError /\
  exists r, extractSchema ex_string_choices = Ok r /\
            schema r !! "choices" =
              Some (JArr [JObj {[ "label" := JStr "undefined";
                                  "value" := JStr "undefined" ]}]).
Proof.
  split; [| split].
  - apply (proj1 (proj2 (proj2 (choices_array_entries ex_null_choice _ _ _
                                  eq_refl eq_refl eq_refl eq_refl)))).
    reflexivity.
  - apply (proj1 (proj2 (proj2 (proj2 (choices_array_entries ex_own_toString _ _ _
                                         eq_refl eq_refl eq_refl eq_refl))))
             (JObj {[ "label" := JObj {[ "toString" := JStr "x" ]};
                      "value" := JStr "v" ]})
             {[ "toString" := JStr "x" ]}).
    + by left.
    + reflexivity.
    + by eexists.
  - destruct (proj1 (choices_array_entries ex_string_choices _ _ _
                       eq_refl eq_refl eq_refl eq_refl) eq_refl) as (r & Hr & Hc).
    exists r. split; [exact Hr |]. rewrite Hc. reflexivity.
Defined.

(** X12. When the primitive representative's [choices] is a mapping, the
    resolution succeeds exactly when every group is an array of printable
    entries, each group then holding the strings of its entries under its
    name; a group that is not an array, or that holds an entry that cannot
    be printed, makes it fail with a [TypeError]. *)
Theorem choices_groups
    (node : obj) (anyOf : list JsValue) (sel groups : obj) :
  node !! "anyOf" = Some (JArr anyOf) ->
  selectSchema (nonNullSchemas anyOf) = JObj sel ->
  isPrimitive (JObj sel) = true ->
  sel !! "choices" = Some (JObj groups) ->
  (map_Forall (fun _ v => group_ok v = true) groups ->
   exists r, extractSchema node = Ok r /\
             schema r !! "choices" = Some (JObj (canonical_group <$> groups))) /\
  (forall g v, groups !! g = Some v -> group_ok v = false ->
   extractSchema node = Throw TypeError) /\
  (forall v, is_array v = false -> group_ok v = false).
Proof.
  intros Hany Hsel Hprim Hc.
  destruct (primitive_resolution _ _ _ Hany Hsel Hprim) as [Hok Hfail].
  rewrite (child_choices_taken node sel _ Hc) in Hok, Hfail by done.
  cbn [choices_ok canonical_choices] in Hok, Hfail.
  split; [| split].
  - intros Hall. apply Hok, forallb_forall.
    intros [g v] Hgv%list_elem_of_In%elem_of_map_to_list. by apply (Hall g).
  - intros g v Hg Hv. apply Hfail.
    apply (forallb_false_In _ _ (g, v)); [| done].
    by apply list_elem_of_In, elem_of_map_to_list.
  - intros v Hv. by destruct v.
Qed.

Lemma choices_groups_samples :
  extractSchema ex_group_not_array = Throw TypeError /\
  exists r, extractSchema ex_number_group = Ok r /\
            schema r !! "choices" =
              Some (JObj {[ "g" := JArr [JStr "1e+21"; JStr "-7"; JStr "a";
                                         JStr "null"; JStr "1,2"] ]}).
Proof.
  split.
  - apply (proj1 (proj2 (choices_groups ex_group_not_array _ _ _
                           eq_refl eq_refl eq_refl eq_refl)) "h" (JStr "b"));
      reflexivity.
  - destruct (proj1 (choices_groups ex_number_group _ _ _
                       eq_refl eq_refl eq_refl eq_refl)) as (r & Hr & Hc).
    + intros g v [_ <-]%lookup_singleton_Some. vm_compute. reflexivity.
    + exists r. split; [exact Hr |]. rewrite Hc. vm_compute. reflexivity.
Defined.

Lemma canonical_pair_id p : string_pair p -> canonical_pair p = p.
Proof. intros (l & x & ->). reflexivity. Qed.

Lemma string_pair_ok p : string_pair p -> pair_ok p = true.
Proof. intros (l & x & ->). reflexivity. Qed.

Lemma canonical_group_id v : string_list v -> canonical_group v = v.
Proof.
  intros (ss & ->). unfold canonical_group. cbn [elements_of].
  rewrite map_map. reflexivity.
Qed.

Lemma string_list_ok v : string_list v -> group_ok v = true.
Proof.
  intros (ss & ->). cbn [group_ok]. apply forallb_forall.
  by intros e (s & <- & _)%in_map_iff.
Qed.

Lemma canonical_choices_id c : is_canonical_choices c -> canonical_choices c = c.
Proof.
  intros [(ps & -> & Hps) | (groups & -> & Hg)]; cbn [canonical_choices]; f_equal.
  - induction Hps as [| p ps Hp _ IH]; [reflexivity |].
    cbn [List.map]. by rewrite (canonical_pair_id _ Hp), IH.
  - apply map_eq. intros k. rewrite lookup_fmap.
    destruct (groups !! k) as [v |] eqn:Hk; [| reflexivity].
    cbn. by rewrite (canonical_group_id _ (Hg _ _ Hk)).
Qed.

Lemma canonical_choices_ok c : is_canonical_choices c -> choices_ok c = true.
Proof.
  intros [(ps & -> & Hps) | (groups & -> & Hg)]; cbn [choices_ok].
  - apply forallb_forall. intros p Hp%list_elem_of_In.
    rewrite Forall_forall in Hps. by apply string_pair_ok, Hps.
  - apply forallb_forall. intros [g v] Hgv%list_elem_of_In%elem_of_map_to_list.
    by apply string_list_ok, (Hg g).
Qed.

(** X13. Normalizing is idempotent: a primitive representative whose
    [choices] already are pairs of strings, or groups of strings, resolves
    successfully with those very choices. *)
Theorem canonical_choices_kept
    (node : obj) (anyOf : list JsValue) (sel : obj) (c : JsValue) :
  node !! "anyOf" = Some (JArr anyOf) ->
  selectSchema (nonNullSchemas anyOf) = JObj sel ->
  isPrimitive (JObj sel) = true ->
  sel !! "choices" = Some c ->
  is_canonical_choices c ->
  exists r, extractSchema node = Ok r /\ schema r !! "choices" = Some c.
Proof.
  intros Hany Hsel Hprim Hc Hcan.
  assert (truthy c = true) as Ht
    by (by destruct Hcan as [(? & -> & _) | (? & -> & _)]).
  destruct (primitive_resolution _ _ _ Hany Hsel Hprim) as [Hok _].
  rewrite (child_choices_taken node sel _ Hc Ht) in Hok.
  rewrite (canonical_choices_id _ Hcan) in Hok.
  by apply Hok, canonical_choices_ok.
Qed.

Lemma canonical_choices_kept_groups :
  exists r, extractSchema ex_canonical_groups = Ok r /\
            schema r !! "choices" = Some (JObj {[ "g" := JArr [JStr "a"; JStr "b"] ]}).
Proof.
  apply (canonical_choices_kept ex_canonical_groups _ _ _
           eq_refl eq_refl eq_refl eq_refl).
  right. eexists. split; [reflexivity |].
  intros k v [_ <-]%lookup_singleton_Some.
  by exists ["a"; "b"].
Defined.
